(** * deaconn: a deadline-aware wrapper around a [net.Conn]

    Shallow embedding of [conn.go] (package [deaconn]) and the properties
    of its read path, write path, reader pump and deadline setters.

    Conventions of the embedding:
    - a Go [[]byte] is an [option (list byte)]: [None] is the nil slice,
      [Some l] a non-nil slice with contents [l] (possibly empty);
    - a Go [error] value is an [option error], [None] being [nil];
    - a Go [int] is a [Z]; lengths are [nat] and are injected with
      [Z.of_nat] where the code returns them;
    - a [time.Time] is a [Z], the instant counted from Go's zero time, so
      that [t.IsZero()] is [t =? 0];
    - a [select] statement is a function of which of its cases are ready
      and of a number [pick] standing for the runtime's pseudo-random
      choice among the ready cases;
    - goroutines are interleaved by an explicit, labelled step function
      on the state of the whole connection ([system]). *)

From Stdlib Require Import String.
From Stdlib.Strings Require Import Byte.
From Stdlib Require Import List ZArith Lia Bool.
Import ListNotations.

Local Open Scope list_scope.

(** ** Go values used by the package *)

Definition time := Z.

Bind Scope Z_scope with time.

Definition IsZero (t : time) : bool := (t =? 0)%Z.

(** The error values the package returns or passes through.
    [inner_error] stands for whatever the wrapped connection reports; it
    carries the answer of its [Timeout()] method. *)
Inductive error : Type :=
| io_EOF
| os_ErrDeadlineExceeded
| net_ErrClosed
| inner_error (code : nat) (timeout : bool).

Definition error_eqb (e1 e2 : error) : bool :=
  match e1, e2 with
  | io_EOF, io_EOF => true
  | os_ErrDeadlineExceeded, os_ErrDeadlineExceeded => true
  | net_ErrClosed, net_ErrClosed => true
  | inner_error c1 t1, inner_error c2 t2 => Nat.eqb c1 c2 && Bool.eqb t1 t2
  | _, _ => false
  end.

(** [errors.Is] on the unwrapped sentinel values above. *)
Definition errors_Is (err : option error) (target : error) : bool :=
  match err with
  | Some e => error_eqb e target
  | None => false
  end.

(** The [Timeout()] classification of [net.Error]. *)
Definition Timeout (e : error) : bool :=
  match e with
  | os_ErrDeadlineExceeded => true
  | inner_error _ t => t
  | _ => false
  end.

Definition slice := option (list byte).

(** [make([]byte, n)] *)
Definition make (n : nat) : list byte := repeat x00 n.

(** [copy(dst, src)]: the number of bytes copied and the new contents of
    [dst]. *)
Definition copy (dst src : list byte) : nat * list byte :=
  let n := Nat.min (length dst) (length src) in
  (n, firstn n src ++ skipn n dst).

(** One [select] statement.  [cases] lists, in source order, whether each
    communication can proceed and the branch it leads to.  [None] means
    that no case is ready: the [default] branch when there is one, and a
    blocked goroutine otherwise. *)
Definition select {A : Type} (cases : list (bool * A)) (pick : nat) : option A :=
  match filter fst cases with
  | [] => None
  | r :: rs => Some (snd (nth (pick mod length (r :: rs)) (r :: rs) r))
  end.

(** Outcome of a call that may have to wait. *)
Inductive outcome (A : Type) : Type :=
| Returned (a : A)
| Blocked.

Arguments Returned {A} a.
Arguments Blocked {A}.

(** An unbuffered [chan []byte] with one sender: nothing offered, a
    sender blocked in [ch <- data], or closed. *)
Inductive chan : Type :=
| ChanIdle
| ChanSending (data : list byte)
| ChanClosed.

(** A receive can proceed on a channel with a waiting sender and on a
    closed channel. *)
Definition chan_ready (ch : chan) : bool :=
  match ch with
  | ChanIdle => false
  | _ => true
  end.

(** ** Package [deadline] *)

Module deadline.

(** Modelled from the spec: package [deadline] ([deadline.Deadline],
    [deadline.New], [Set] (here [Set_]), [Done]) is imported by [conn.go] and is not
    among the sources.  Section 4.1: [Set(t)] with the zero value
    disables the deadline; with [t] in the past the signal is
    observable at once; with [t] in the future it becomes observable no
    earlier than [t]; a new [Set] supersedes the previous one.  The
    signal stays observable until the next [Set] (level-triggered,
    section 5). *)
Record Deadline : Type := mkDeadline {
  expiry : option time;
  fired : bool
}.

Definition New : Deadline := mkDeadline None false.

Definition Set_ (now t : time) (d : Deadline) : Deadline :=
  if IsZero t then mkDeadline None false
  else if (t <=? now)%Z then mkDeadline (Some t) true
  else mkDeadline (Some t) false.

(** Whether a receive on [d.Done()] can proceed. *)
Definition Done (d : Deadline) : bool := fired d.

(** The armed timer goes off: allowed once the expiry has passed. *)
Definition elapse (now : time) (d : Deadline) : Deadline :=
  match expiry d with
  | Some t => if (t <=? now)%Z then mkDeadline (Some t) true else d
  | None => d
  end.

End deadline.

(** ** The wrapped connection *)

(** One return of [inner.Read(buf)]: the [n] bytes it stored at the front
    of [buf], and its error. *)
Record read_result : Type := mkRead {
  rd_data : list byte;
  rd_err : option error
}.

(** The wrapped [net.Conn] as the package sees it: the results its
    successive [Read] calls will give, what its [Close] returns, and a
    record of the [Write] and [Close] calls issued on it.  A [Write]
    issued from a goroutine of its own is recorded when that goroutine
    is started; when the wrapped connection carries it out is not
    modelled. *)
Record netConn : Type := mkNetConn {
  reads : list read_result;
  close_err : option error;
  writes : list (list byte);
  closes : nat
}.

Definition inner_Write (i : netConn) (p : list byte) : netConn :=
  mkNetConn (reads i) (close_err i) (writes i ++ [p]) (closes i).

Definition inner_Close (i : netConn) : netConn * option error :=
  (mkNetConn (reads i) (close_err i) (writes i) (S (closes i)), close_err i).

(** [inner.Read(buf)]; [None] while the wrapped connection has nothing to
    report, that is while the call blocks. *)
Definition inner_Read (i : netConn) : option (read_result * netConn) :=
  match reads i with
  | [] => None
  | r :: rest => Some (r, mkNetConn rest (close_err i) (writes i) (closes i))
  end.

(** ** [conn.go] *)

(** [const readBufferSize]: the length of the pump's scratch buffer, hence
    the most bytes one [inner.Read(buf)] can return. *)
Definition readBufferSize : Z := 5242880.

Record txResult : Type := mkTxResult {
  tx_n : Z;
  tx_err : option error
}.

(** [type conn struct].  [ctxDone] is whether [c.ctx.Done()] is closed,
    that is whether [c.ctxCancel] has run. *)
Record conn : Type := mkConn {
  inner : netConn;
  ctxDone : bool;
  rxData : chan;
  rxDataPending : list byte;
  rxDeadline : deadline.Deadline;
  txDeadline : deadline.Deadline
}.

Definition set_inner (c : conn) (i : netConn) : conn :=
  mkConn i (ctxDone c) (rxData c) (rxDataPending c) (rxDeadline c) (txDeadline c).

Definition set_ctxDone (c : conn) (b : bool) : conn :=
  mkConn (inner c) b (rxData c) (rxDataPending c) (rxDeadline c) (txDeadline c).

Definition set_rxData (c : conn) (ch : chan) : conn :=
  mkConn (inner c) (ctxDone c) ch (rxDataPending c) (rxDeadline c) (txDeadline c).

Definition set_rxDataPending (c : conn) (p : list byte) : conn :=
  mkConn (inner c) (ctxDone c) (rxData c) p (rxDeadline c) (txDeadline c).

Definition set_rxDeadline (c : conn) (d : deadline.Deadline) : conn :=
  mkConn (inner c) (ctxDone c) (rxData c) (rxDataPending c) d (txDeadline c).

Definition set_txDeadline (c : conn) (d : deadline.Deadline) : conn :=
  mkConn (inner c) (ctxDone c) (rxData c) (rxDataPending c) (rxDeadline c) d.

(** [WithDeadlines], without the [go c.continouslyReadIntoBuffer()] that
    [system_init] below accounts for. *)
Definition WithDeadlines (i : netConn) : conn :=
  mkConn i false ChanIdle [] deadline.New deadline.New.

(** What a [Read] returns: [(int, error)], the contents of the caller's
    buffer after the call, and the connection. *)
Record read_return : Type := mkReadReturn {
  rr_n : Z;
  rr_err : option error;
  rr_buf : slice;
  rr_conn : conn
}.

Inductive rx_case : Type := RxClosed | RxDeadline | RxData.

(** [Read], first [select] (lines 87-101).  [None]: the [default] branch
    found no pending bytes and control reaches the second [select].
    ([RxData] is not a case of this [select].) *)
Definition Read_pending (c : conn) (b : list byte) (pick : nat) : option read_return :=
  match select [(ctxDone c, RxClosed);
                (deadline.Done (rxDeadline c), RxDeadline)] pick with
  | Some RxClosed => Some (mkReadReturn 0 (Some io_EOF) (Some b) c)
  | Some RxDeadline =>
      Some (mkReadReturn 0 (Some os_ErrDeadlineExceeded) (Some b) c)
  | Some RxData | None =>
      if 0 <? length (rxDataPending c) then
        let (n, b') := copy b (rxDataPending c) in
        Some (mkReadReturn (Z.of_nat n) None (Some b')
                (set_rxDataPending c (skipn n (rxDataPending c))))
      else None
  end.

(** [Read], second [select] (lines 103-124). *)
Definition Read_wait (c : conn) (b : list byte) (pick : nat) : outcome read_return :=
  match select [(ctxDone c, RxClosed);
                (deadline.Done (rxDeadline c), RxDeadline);
                (chan_ready (rxData c), RxData)] pick with
  | None => Blocked
  | Some RxClosed => Returned (mkReadReturn 0 (Some io_EOF) (Some b) c)
  | Some RxDeadline =>
      Returned (mkReadReturn 0 (Some os_ErrDeadlineExceeded) (Some b) c)
  | Some RxData =>
      match rxData c with
      | ChanSending data =>
          (* the receive completes the sender's [c.rxData <- copied[:n]] *)
          let c1 := set_rxData c ChanIdle in
          let (n, b') := copy b data in
          Returned (mkReadReturn (Z.of_nat n) None (Some b')
                      (if n <? length data
                       then set_rxDataPending c1 (rxDataPending c1 ++ skipn n data)
                       else c1))
      | _ => Returned (mkReadReturn 0 (Some io_EOF) (Some b) c)
      end
  end.

(** [func (c *conn) Read(b []byte) (int, error)], both selects seeing the
    same state of the connection. *)
Definition Read (c : conn) (b : slice) (pick1 pick2 : nat) : outcome read_return :=
  match b with
  | None => Returned (mkReadReturn 0 None None c)
  | Some buf =>
      match Read_pending c buf pick1 with
      | Some r => Returned r
      | None => Read_wait c buf pick2
      end
  end.

Inductive tx_case : Type := TxClosed | TxDeadline | TxResult.

(** The [select] of [Write] (lines 146-156).  [res] is what the writing
    goroutine has put on [txResultChan] so far: [None] while
    [c.inner.Write(copied)] is still running. *)
Definition Write_wait (c : conn) (res : option txResult) (pick : nat)
  : outcome (Z * option error) :=
  match select [(ctxDone c, TxClosed);
                (deadline.Done (txDeadline c), TxDeadline);
                (match res with Some _ => true | None => false end, TxResult)] pick with
  | None => Blocked
  | Some TxClosed => Returned (0%Z, Some io_EOF)
  | Some TxDeadline => Returned (0%Z, Some os_ErrDeadlineExceeded)
  | Some TxResult =>
      match res with
      | Some result => Returned (tx_n result, tx_err result)
      | None => Blocked
      end
  end.

(** [func (c *conn) Write(b []byte) (n int, err error)].  The second
    component is the connection after the call: the goroutine that calls
    [c.inner.Write(copied)] has been started, whatever the [select] ends
    with; [res] says how far that goroutine has got when the [select]
    chooses. *)
Definition Write (c : conn) (b : slice) (res : option txResult) (pick : nat)
  : outcome (Z * option error) * conn :=
  match b with
  | None => (Returned (0%Z, None), c)
  | Some buf =>
      let copied := snd (copy (make (length buf)) buf) in
      let c1 := set_inner c (inner_Write (inner c) copied) in
      (Write_wait c1 res pick, c1)
  end.

(** [func (c *conn) Close() error]: [c.inner.Close()], then the deferred
    [c.ctxCancel()]. *)
Definition Close (c : conn) : conn * option error :=
  let (i, err) := inner_Close (inner c) in
  (set_ctxDone (set_inner c i) true, err).

(** [func (c *conn) SetReadDeadline(t time.Time) error] *)
Definition SetReadDeadline (now t : time) (c : conn) : conn * option error :=
  match select [(ctxDone c, tt)] 0 with
  | Some _ => (c, Some net_ErrClosed)
  | None => (set_rxDeadline c (deadline.Set_ now t (rxDeadline c)), None)
  end.

(** [func (c *conn) SetWriteDeadline(t time.Time) error] *)
Definition SetWriteDeadline (now t : time) (c : conn) : conn * option error :=
  match select [(ctxDone c, tt)] 0 with
  | Some _ => (c, Some net_ErrClosed)
  | None => (set_txDeadline c (deadline.Set_ now t (txDeadline c)), None)
  end.

(** [func (c *conn) SetDeadline(t time.Time) error] *)
Definition SetDeadline (now t : time) (c : conn) : conn * option error :=
  match SetReadDeadline now t c with
  | (c1, Some err) => (c1, Some err)
  | (c1, None) => SetWriteDeadline now t c1
  end.

(** ** The reader pump *)

(** Where [continouslyReadIntoBuffer] stands: at the head of its loop;
    blocked in [c.rxData <- copied[:n]], holding the error of the read
    that produced the chunk; returning, with the deferred [c.Close()]
    and then the deferred [close(c.rxData)] still to run; gone. *)
Inductive pump_pc : Type :=
| PumpLoop
| PumpSending (err : option error)
| PumpDeferClose
| PumpDeferCloseChan
| PumpExited.

(** One step of [func (c *conn) continouslyReadIntoBuffer()].  [None]:
    the goroutine cannot move (it is blocked in [inner.Read], or in the
    send, or has exited). *)
Definition pump_step (c : conn) (pc : pump_pc) : option (conn * pump_pc) :=
  match pc with
  | PumpLoop =>
      match select [(ctxDone c, tt)] 0 with
      | Some _ => Some (c, PumpDeferClose)
      | None =>
          match inner_Read (inner c) with
          | None => None
          | Some (r, i) =>
              let c1 := set_inner c i in
              let n := length (rd_data r) in
              if 0 <? n then
                let copied := snd (copy (make n) (firstn n (rd_data r))) in
                Some (set_rxData c1 (ChanSending (firstn n copied)),
                      PumpSending (rd_err r))
              else
                match rd_err r with
                | Some _ => Some (c1, PumpDeferClose)
                | None => Some (c1, PumpLoop)
                end
          end
      end
  | PumpSending err =>
      match rxData c with
      | ChanIdle =>
          match err with
          | Some _ => Some (c, PumpDeferClose)
          | None => Some (c, PumpLoop)
          end
      | _ => None
      end
  | PumpDeferClose => Some (fst (Close c), PumpDeferCloseChan)
  | PumpDeferCloseChan => Some (set_rxData c ChanClosed, PumpExited)
  | PumpExited => None
  end.

(** ** The connection with its goroutines *)

(** The bytes a returned [Read] has put in the caller's buffer. *)
Definition delivered_of (r : read_return) : list byte :=
  match rr_buf r with
  | Some l => firstn (Z.to_nat (rr_n r)) l
  | None => []
  end.

(** The connection, its pump, its one reader ([Some b] while a [Read(b)]
    waits in its second [select]), and a record of what the [Read] calls
    have returned so far. *)
Record system : Type := mkSystem {
  sys_conn : conn;
  sys_pump : pump_pc;
  sys_reader : option (list byte);
  sys_returns : list (Z * option error);
  sys_delivered : list byte
}.

Definition system_init (i : netConn) : system :=
  mkSystem (WithDeadlines i) PumpLoop None [] [].

Definition with_conn (s : system) (c : conn) : system :=
  mkSystem c (sys_pump s) (sys_reader s) (sys_returns s) (sys_delivered s).

Definition read_returns (s : system) (r : read_return) : system :=
  mkSystem (rr_conn r) (sys_pump s) None
    (sys_returns s ++ [(rr_n r, rr_err r)])
    (sys_delivered s ++ delivered_of r).

Inductive event : Type :=
| EvPump
| EvRead (b : slice) (pick : nat)
| EvReadResume (pick : nat)
| EvWrite (b : slice) (res : option txResult) (pick : nat)
| EvClose
| EvSetDeadline (now t : time)
| EvSetReadDeadline (now t : time)
| EvSetWriteDeadline (now t : time)
| EvTimer (now : time).

(** One atomic move of the connection.  [None]: the event cannot happen
    in this state. *)
Definition step (e : event) (s : system) : option system :=
  let c := sys_conn s in
  match e with
  | EvPump =>
      match pump_step c (sys_pump s) with
      | Some (c', pc) =>
          Some (mkSystem c' pc (sys_reader s) (sys_returns s) (sys_delivered s))
      | None => None
      end
  | EvRead b pick =>
      match sys_reader s, b with
      | Some _, _ => None
      | None, None => Some (read_returns s (mkReadReturn 0 None None c))
      | None, Some buf =>
          match Read_pending c buf pick with
          | Some r => Some (read_returns s r)
          | None =>
              Some (mkSystem c (sys_pump s) (Some buf)
                      (sys_returns s) (sys_delivered s))
          end
      end
  | EvReadResume pick =>
      match sys_reader s with
      | Some buf =>
          match Read_wait c buf pick with
          | Returned r => Some (read_returns s r)
          | Blocked => None
          end
      | None => None
      end
  | EvWrite b res pick => Some (with_conn s (snd (Write c b res pick)))
  | EvClose => Some (with_conn s (fst (Close c)))
  | EvSetDeadline now t => Some (with_conn s (fst (SetDeadline now t c)))
  | EvSetReadDeadline now t => Some (with_conn s (fst (SetReadDeadline now t c)))
  | EvSetWriteDeadline now t => Some (with_conn s (fst (SetWriteDeadline now t c)))
  | EvTimer now =>
      Some (with_conn s
              (set_txDeadline
                 (set_rxDeadline c (deadline.elapse now (rxDeadline c)))
                 (deadline.elapse now (txDeadline c))))
  end.

Fixpoint run (es : list event) (s : system) : option system :=
  match es with
  | [] => Some s
  | e :: es' =>
      match step e s with
      | Some s' => run es' s'
      | None => None
      end
  end.

(** The bytes the wrapped connection still has to produce, and the chunk
    the pump is trying to hand over. *)
Definition stream_bytes (i : netConn) : list byte :=
  concat (map rd_data (reads i)).

Definition in_flight (c : conn) : list byte :=
  match rxData c with
  | ChanSending data => data
  | _ => []
  end.

(** ** A caller reading in a loop *)

(** One [Read] of the caller: its buffer and the runtime's choices. *)
Record read_call : Type := mkCall {
  rc_buf : list byte;
  rc_pick1 : nat;
  rc_pick2 : nat
}.

(** The pump's next send, when the channel is free: [q] lists the chunks
    the pump is going to publish. *)
Definition offer (c : conn) (q : list (list byte)) : conn * list (list byte) :=
  match rxData c, q with
  | ChanIdle, data :: q' => (set_rxData c (ChanSending data), q')
  | _, _ => (c, q)
  end.

(** The caller issues [calls] one after the other, stopping at a call
    that would block; the result lists what each call returned. *)
Fixpoint read_all (c : conn) (q : list (list byte)) (calls : list read_call)
  : list read_return * conn * list (list byte) :=
  match calls with
  | [] => ([], c, q)
  | k :: calls' =>
      let (c0, q0) := offer c q in
      match Read c0 (Some (rc_buf k)) (rc_pick1 k) (rc_pick2 k) with
      | Returned r =>
          let '(rs, c', q') := read_all (rr_conn r) q0 calls' in
          (r :: rs, c', q')
      | Blocked => ([], c0, q0)
      end
  end.

(** ** Invariant of the connection *)

(** The pump and the handoff queue agree: the queue is closed exactly
    when the pump has gone, and only a pump blocked in its send has a
    chunk on the queue. *)
Definition pump_coherent (pc : pump_pc) (ch : chan) : Prop :=
  match pc with
  | PumpSending _ => ch <> ChanClosed
  | PumpExited => ch = ChanClosed
  | _ => ch = ChanIdle
  end.

(** Every byte of [total] is in exactly one place, and the places are in
    stream order: returned to a caller, pending, on the handoff queue, or
    not yet produced by the wrapped connection.  Chunks on the queue are
    non-empty, and a [Read] waits in its second [select] only with an
    empty pending buffer. *)
Definition sys_inv (total : list byte) (s : system) : Prop :=
  sys_delivered s ++ rxDataPending (sys_conn s) ++ in_flight (sys_conn s)
    ++ stream_bytes (inner (sys_conn s)) = total
  /\ (forall d, rxData (sys_conn s) = ChanSending d -> d <> [])
  /\ (sys_reader s <> None -> rxDataPending (sys_conn s) = [])
  /\ pump_coherent (sys_pump s) (rxData (sys_conn s)).

(** [c'] differs from [c] in nothing the read path looks at. *)
Definition same_rx (c c' : conn) : Prop :=
  rxData c' = rxData c
  /\ rxDataPending c' = rxDataPending c
  /\ reads (inner c') = reads (inner c).

(** The read path is in normal operation: neither signal is set, the
    handoff queue is open, and the chunks on it and coming to it are
    non-empty. *)
Definition rx_live (c : conn) (q : list (list byte)) : Prop :=
  ctxDone c = false
  /\ deadline.Done (rxDeadline c) = false
  /\ rxData c <> ChanClosed
  /\ (forall d, rxData c = ChanSending d -> d <> [])
  /\ Forall (fun d => d <> []) q.

(** ** Further observations on a run *)

(** The buffers the [Write] calls of a run hand to [c.inner.Write], in
    call order; a [Write(nil)] hands over nothing. *)
Definition written (es : list event) : list (list byte) :=
  flat_map (fun e => match e with
                     | EvWrite (Some b) _ _ => [b]
                     | _ => []
                     end) es.

(** How many times a run calls the public [Close]. *)
Definition close_calls (es : list event) : nat :=
  length (filter (fun e => match e with EvClose => true | _ => false end) es).

(** Whether the pump has run its deferred [c.Close()]. *)
Definition pump_has_closed (pc : pump_pc) : nat :=
  match pc with
  | PumpDeferCloseChan | PumpExited => 1
  | _ => 0
  end.

(** What the caller of [Read] sees: [(n, err)] and its buffer. *)
Definition read_answer (o : outcome read_return)
  : outcome (Z * option error * slice) :=
  match o with
  | Returned r => Returned (rr_n r, rr_err r, rr_buf r)
  | Blocked => Blocked
  end.

(** ** Concrete connections used in the examples *)

Definition hello_world : list byte := list_byte_of_string "hello world".

(** A wrapped connection that produces "hello world" in one read and
    reports the end of the stream on the next. *)
Definition hello_stream : netConn :=
  mkNetConn [mkRead hello_world None; mkRead [] (Some io_EOF)] None [] 0.

(** The pump publishes the chunk; a [Read] into five bytes receives it. *)
Definition hello_first_read : list event :=
  [EvPump; EvRead (Some (make 5)) 0; EvReadResume 0].

(** ... then the pump completes its send, reads the end of the stream and
    runs its deferred [c.Close()]. *)
Definition hello_then_stream_end : list event :=
  hello_first_read ++ [EvPump; EvPump; EvPump].

(** ... or else the caller sets a read deadline that has already passed. *)
Definition hello_then_past_deadline : list event :=
  hello_first_read ++ [EvSetReadDeadline 10 5].

(** A fresh connection, closed by its user. *)
Definition closed_conn : conn :=
  fst (Close (WithDeadlines (mkNetConn [] None [] 0))).

(** A connection whose two deadlines had passed when it was closed. *)
Definition expired_closed_conn : conn :=
  fst (Close (fst (SetDeadline 10 5 (WithDeadlines (mkNetConn [] None [] 0))))).

(** The connection after [hello_then_stream_end]. *)
Definition hello_closed_system : system :=
  match run hello_then_stream_end (system_init hello_stream) with
  | Some s => s
  | None => system_init hello_stream
  end.

(** The same run with a read deadline in the past set before the pump
    sees the end of the stream. *)
Definition hello_expired_closed_system : system :=
  match run (hello_then_past_deadline ++ [EvPump; EvPump; EvPump])
          (system_init hello_stream) with
  | Some s => s
  | None => system_init hello_stream
  end.

(** A wrapped connection whose first read returns "hello world" together
    with an error of its own. *)
Definition failing_stream : netConn :=
  mkNetConn [mkRead hello_world (Some (inner_error 7 false))] None [] 0.

(** * Properties *)

(** ** [select], [copy], [make] *)

Lemma select_In {A : Type} (cases : list (bool * A)) (pick : nat) (a : A) :
  select cases pick = Some a -> In a (map snd (filter fst cases)).
Proof.
  unfold select. destruct (filter fst cases) as [|r rs] eqn:E; [discriminate|].
  remember (r :: rs) as ready eqn:Hready.
  intros H. injection H as <-. apply in_map, nth_In.
  apply Nat.mod_upper_bound. subst ready. discriminate.
Qed.

Lemma select_None {A : Type} (cases : list (bool * A)) (pick : nat) :
  select cases pick = None <-> filter fst cases = [].
Proof.
  unfold select. destruct (filter fst cases); split; congruence.
Qed.

Lemma select_default {A : Type} (cases : list (bool * A)) (pick : nat) :
  Forall (fun k => fst k = false) cases -> select cases pick = None.
Proof.
  intros H. apply select_None. induction H as [|[r a] l Hr _ IH]; [reflexivity|].
  simpl in *. now rewrite Hr.
Qed.

Lemma select_only {A : Type} (cases : list (bool * A)) (pick : nat) (a : A) :
  map snd (filter fst cases) = [a] -> select cases pick = Some a.
Proof.
  intros H. destruct (select cases pick) as [x|] eqn:E.
  - apply select_In in E. rewrite H in E. destruct E as [->|[]]. reflexivity.
  - apply select_None in E. rewrite E in H. discriminate.
Qed.

Lemma copy_n (dst src : list byte) :
  fst (copy dst src) = Nat.min (length dst) (length src).
Proof. reflexivity. Qed.

Lemma copy_prefix (dst src : list byte) :
  firstn (fst (copy dst src)) (snd (copy dst src)) = firstn (length dst) src.
Proof.
  unfold copy. cbn [fst snd].
  rewrite firstn_app, length_firstn.
  replace (Nat.min (length dst) (length src)
           - Nat.min (Nat.min (length dst) (length src)) (length src)) with 0 by lia.
  rewrite firstn_O, app_nil_r, firstn_firstn.
  replace (Nat.min (Nat.min (length dst) (length src)) (Nat.min (length dst) (length src)))
    with (Nat.min (length dst) (length src)) by lia.
  destruct (Nat.le_ge_cases (length dst) (length src)) as [H|H].
  - now rewrite Nat.min_l.
  - rewrite Nat.min_r by assumption.
    now rewrite !firstn_all2 by lia.
Qed.

Lemma copy_rest (dst src : list byte) :
  skipn (fst (copy dst src)) src = skipn (length dst) src.
Proof.
  rewrite copy_n. destruct (Nat.le_ge_cases (length dst) (length src)) as [H|H].
  - now rewrite Nat.min_l.
  - rewrite Nat.min_r by assumption. now rewrite !skipn_all2 by lia.
Qed.

Lemma make_length (n : nat) : length (make n) = n.
Proof. apply repeat_length. Qed.

(** [copied := make([]byte, len(b)); copy(copied, b)] makes [copied] equal
    to [b]. *)
Lemma copy_make (b : list byte) : snd (copy (make (length b)) b) = b.
Proof.
  unfold copy. cbn [snd]. rewrite make_length, Nat.min_id.
  rewrite firstn_all, skipn_all2 by (rewrite make_length; lia).
  apply app_nil_r.
Qed.

(** ** The first [select] of [Read] *)

(** With a signal set, the first [select] returns zero bytes and that
    signal's error, and leaves the connection as it was. *)
Lemma Read_pending_signalled (c : conn) (b : list byte) (pick : nat) :
  ctxDone c = true \/ deadline.Done (rxDeadline c) = true ->
  exists e,
    Read_pending c b pick = Some (mkReadReturn 0 (Some e) (Some b) c)
    /\ ((e = io_EOF /\ ctxDone c = true)
        \/ (e = os_ErrDeadlineExceeded /\ deadline.Done (rxDeadline c) = true)).
Proof.
  intros H. unfold Read_pending.
  destruct (select _ pick) as [k|] eqn:E.
  - apply select_In in E.
    destruct (ctxDone c), (deadline.Done (rxDeadline c)); simpl in E;
      intuition (subst; eauto); try discriminate.
  - apply select_None in E.
    destruct (ctxDone c), (deadline.Done (rxDeadline c)); simpl in E;
      intuition discriminate.
Qed.

Lemma Read_pending_unsignalled (c : conn) (b : list byte) (pick : nat) :
  ctxDone c = false -> deadline.Done (rxDeadline c) = false ->
  Read_pending c b pick =
    if 0 <? length (rxDataPending c) then
      let n := Nat.min (length b) (length (rxDataPending c)) in
      Some (mkReadReturn (Z.of_nat n) None
              (Some (firstn n (rxDataPending c) ++ skipn n b))
              (set_rxDataPending c (skipn n (rxDataPending c))))
    else None.
Proof.
  intros Hc Hd. unfold Read_pending. rewrite Hc, Hd.
  rewrite select_default by (repeat constructor). reflexivity.
Qed.

(** A closed connection answers every [Read] into a non-nil buffer with
    zero bytes and an error, whatever it still holds. *)
Lemma Read_closed (c : conn) (b : list byte) (pick1 pick2 : nat) :
  ctxDone c = true ->
  exists e,
    Read c (Some b) pick1 pick2 = Returned (mkReadReturn 0 (Some e) (Some b) c)
    /\ (e = io_EOF
        \/ (e = os_ErrDeadlineExceeded /\ deadline.Done (rxDeadline c) = true)).
Proof.
  intros H.
  destruct (Read_pending_signalled c b pick1 (or_introl H)) as (e & E & He).
  exists e. unfold Read. rewrite E. split; [reflexivity|tauto].
Qed.

Lemma Read_closed_EOF (c : conn) (b : list byte) (pick1 pick2 : nat) :
  ctxDone c = true -> deadline.Done (rxDeadline c) = false ->
  Read c (Some b) pick1 pick2 = Returned (mkReadReturn 0 (Some io_EOF) (Some b) c).
Proof.
  intros H Hd. destruct (Read_closed c b pick1 pick2 H) as (e & E & [->|[_ He]]).
  - exact E.
  - congruence.
Qed.

(** ** Deadline setters *)

(** C4.  For every time [t]: on a closed connection [SetReadDeadline(t)]
    and [SetWriteDeadline(t)] return the closed-connection error and
    leave the connection, hence both deadline primitives, as they were;
    on a connection that is not closed they return no error and forward
    [t] to the [Set] of their own deadline primitive: afterwards that
    primitive is what its [Set] makes of it, and the other primitive and
    the rest of the connection are as before. *)
Theorem SetReadDeadline_SetWriteDeadline_spec (now t : time) (c : conn) :
  (ctxDone c = true ->
   SetReadDeadline now t c = (c, Some net_ErrClosed)
   /\ SetWriteDeadline now t c = (c, Some net_ErrClosed))
  /\ (ctxDone c = false ->
      SetReadDeadline now t c
        = (set_rxDeadline c (deadline.Set_ now t (rxDeadline c)), None)
      /\ SetWriteDeadline now t c
        = (set_txDeadline c (deadline.Set_ now t (txDeadline c)), None)
      /\ (let c' := fst (SetReadDeadline now t c) in
          rxDeadline c' = deadline.Set_ now t (rxDeadline c)
          /\ txDeadline c' = txDeadline c
          /\ inner c' = inner c /\ ctxDone c' = ctxDone c
          /\ rxData c' = rxData c /\ rxDataPending c' = rxDataPending c)
      /\ (let c' := fst (SetWriteDeadline now t c) in
          txDeadline c' = deadline.Set_ now t (txDeadline c)
          /\ rxDeadline c' = rxDeadline c
          /\ inner c' = inner c /\ ctxDone c' = ctxDone c
          /\ rxData c' = rxData c /\ rxDataPending c' = rxDataPending c)).
Proof.
  unfold SetReadDeadline, SetWriteDeadline.
  split; intros H; rewrite H.
  - rewrite (select_only [(true, tt)] 0 tt) by reflexivity. split; reflexivity.
  - rewrite select_default by (repeat constructor). cbn [fst].
    repeat split; reflexivity || exact H.
Qed.

Lemma SetReadDeadline_SetWriteDeadline_spec_witness :
  (let c := fst (Close (WithDeadlines (mkNetConn [] None [] 0))) in
   SetReadDeadline 10 20 c = (c, Some net_ErrClosed)
   /\ SetWriteDeadline 10 20 c = (c, Some net_ErrClosed))
  /\ (let c := WithDeadlines (mkNetConn [] None [] 0) in
      SetReadDeadline 10 20 c
        = (set_rxDeadline c (deadline.Set_ 10 20 (rxDeadline c)), None)
      /\ SetWriteDeadline 10 20 c
        = (set_txDeadline c (deadline.Set_ 10 20 (txDeadline c)), None))
  /\ (let c := WithDeadlines (mkNetConn [] None [] 0) in
      rxDeadline (fst (SetReadDeadline 10 20 c))
      = deadline.mkDeadline (Some 20%Z) false
      /\ txDeadline (fst (SetReadDeadline 10 20 c)) = deadline.New
      /\ txDeadline (fst (SetWriteDeadline 10 5 c))
         = deadline.mkDeadline (Some 5%Z) true
      /\ rxDeadline (fst (SetWriteDeadline 10 5 c)) = deadline.New).
Proof.
  split; [|split].
  - apply (proj1 (SetReadDeadline_SetWriteDeadline_spec
                    10 20 (fst (Close (WithDeadlines (mkNetConn [] None [] 0)))))).
    reflexivity.
  - destruct (proj2 (SetReadDeadline_SetWriteDeadline_spec
                       10 20 (WithDeadlines (mkNetConn [] None [] 0))) eq_refl)
      as (Hr & Hw & _).
    exact (conj Hr Hw).
  - intros c.
    destruct (proj2 (SetReadDeadline_SetWriteDeadline_spec 10 20 c) eq_refl)
      as (_ & _ & (Hr1 & Hr2 & _) & _).
    destruct (proj2 (SetReadDeadline_SetWriteDeadline_spec 10 5 c) eq_refl)
      as (_ & _ & _ & (Hw1 & Hw2 & _)).
    exact (conj Hr1 (conj Hr2 (conj Hw1 Hw2))).
Defined.

(** C6.  For every time [t], [SetDeadline(t)] is [SetReadDeadline(t)]
    followed by [SetWriteDeadline(t)], stopping at the first failure: an
    error of [SetReadDeadline(t)] is returned as it is, with the
    connection as [SetReadDeadline] left it, so that the write deadline
    is not touched; otherwise the result is that of [SetWriteDeadline(t)]
    on the connection [SetReadDeadline] left. *)
Theorem SetDeadline_short_circuit (now t : time) (c : conn) :
  (forall c1 err,
      SetReadDeadline now t c = (c1, Some err) ->
      SetDeadline now t c = (c1, Some err)
      /\ txDeadline (fst (SetDeadline now t c)) = txDeadline c)
  /\ (forall c1,
         SetReadDeadline now t c = (c1, None) ->
         SetDeadline now t c = SetWriteDeadline now t c1).
Proof.
  unfold SetDeadline. split.
  - intros c1 err H. rewrite H. split; [reflexivity|]. cbn [fst].
    destruct (SetReadDeadline_SetWriteDeadline_spec now t c) as [Hc Ho].
    destruct (ctxDone c) eqn:E.
    + destruct (Hc eq_refl) as [Hr _]. congruence.
    + destruct (Ho eq_refl) as [Hr _]. congruence.
  - intros c1 H. now rewrite H.
Qed.

Lemma SetDeadline_short_circuit_witness :
  (let c := fst (Close (WithDeadlines (mkNetConn [] None [] 0))) in
   SetDeadline 10 20 c = (c, Some net_ErrClosed)
   /\ txDeadline (fst (SetDeadline 10 20 c)) = txDeadline c)
  /\ (let c := WithDeadlines (mkNetConn [] None [] 0) in
      SetDeadline 10 20 c
      = SetWriteDeadline 10 20
          (set_rxDeadline c (deadline.Set_ 10 20 (rxDeadline c)))).
Proof.
  split.
  - apply (proj1 (SetDeadline_short_circuit
                    10 20 (fst (Close (WithDeadlines (mkNetConn [] None [] 0)))))).
    reflexivity.
  - apply (proj2 (SetDeadline_short_circuit
                    10 20 (WithDeadlines (mkNetConn [] None [] 0)))).
    reflexivity.
Defined.

(** ** [Read] and the pending bytes *)

(** C2, as stated, fails: in the run where a five-byte [Read] has left
    " world" pending, a closed connection answers the next [Read] with
    end-of-stream, and a passed read deadline answers it with
    deadline-exceeded; neither call copies a pending byte. *)
Lemma Read_pending_withheld_when_signalled :
  (exists s,
      run hello_then_stream_end (system_init hello_stream) = Some s
      /\ rxDataPending (sys_conn s) = list_byte_of_string " world"
      /\ Read (sys_conn s) (Some (make 5)) 0 0
         = Returned (mkReadReturn 0 (Some io_EOF) (Some (make 5)) (sys_conn s)))
  /\ (exists s,
         run hello_then_past_deadline (system_init hello_stream) = Some s
         /\ rxDataPending (sys_conn s) = list_byte_of_string " world"
         /\ Read (sys_conn s) (Some (make 5)) 0 0
            = Returned (mkReadReturn 0 (Some os_ErrDeadlineExceeded)
                          (Some (make 5)) (sys_conn s))).
Proof.
  split; eexists; (split; [vm_compute; reflexivity|]); split; reflexivity.
Qed.

(** C2, amended.  For every call to [Read] with a non-nil destination
    buffer while the pending-bytes buffer is non-empty and neither the
    cancellation signal nor the read-deadline signal is set, [Read]
    returns at once, with no error, the number of pending bytes that fit,
    having copied them to the front of the destination; the pending
    buffer loses exactly these bytes and the handoff queue is left alone;
    a non-empty destination gets at least one byte.  When one of the two
    signals is set the call instead returns zero bytes with that signal's
    error and leaves the pending buffer as it was. *)
Theorem Read_drains_pending_unless_signalled
    (c : conn) (b : list byte) (pick1 pick2 : nat) :
  rxDataPending c <> [] ->
  (ctxDone c = false -> deadline.Done (rxDeadline c) = false ->
   let n := Nat.min (length b) (length (rxDataPending c)) in
   Read c (Some b) pick1 pick2
   = Returned (mkReadReturn (Z.of_nat n) None
                 (Some (firstn n (rxDataPending c) ++ skipn n b))
                 (set_rxDataPending c (skipn n (rxDataPending c))))
   /\ length (skipn n (rxDataPending c)) = length (rxDataPending c) - n
   /\ rxData (set_rxDataPending c (skipn n (rxDataPending c))) = rxData c
   /\ (b <> [] -> 1 <= n))
  /\ (ctxDone c = true \/ deadline.Done (rxDeadline c) = true ->
      exists e,
        Read c (Some b) pick1 pick2
        = Returned (mkReadReturn 0 (Some e) (Some b) c)
        /\ (e = io_EOF \/ e = os_ErrDeadlineExceeded)).
Proof.
  intros Hp. split.
  - intros Hc Hd n. unfold Read.
    rewrite Read_pending_unsignalled by assumption.
    destruct (rxDataPending c) as [|x p] eqn:E; [congruence|].
    cbn [length Nat.ltb Nat.leb]. repeat split.
    + apply length_skipn.
    + intros Hb. destruct b; [congruence|]. subst n. cbn [length]. lia.
  - intros H. destruct (Read_pending_signalled c b pick1 H) as (e & E & He).
    exists e. unfold Read. rewrite E. split; [reflexivity|tauto].
Qed.

Lemma Read_drains_pending_unless_signalled_witness :
  let c := set_rxDataPending (WithDeadlines hello_stream) hello_world in
  Read c (Some (make 5)) 0 0
  = Returned (mkReadReturn 5 None (Some (list_byte_of_string "hello"))
                (set_rxDataPending c (list_byte_of_string " world"))).
Proof.
  intros c.
  assert (Hp : rxDataPending c <> []) by discriminate.
  exact (proj1 (proj1 (Read_drains_pending_unless_signalled c (make 5) 0 0 Hp)
                  eq_refl eq_refl)).
Defined.

(** ** Nil buffers *)

(** C10.  [Read] with a nil buffer returns [(0, nil)] in every state of
    the connection and leaves it as it was: the nil check comes before
    every signal check.  In particular it returns no error on a
    connection that is closed or whose read deadline has passed, where a
    [Read] into a non-nil buffer returns zero bytes with end-of-stream
    or deadline-exceeded. *)
Theorem Read_nil_unconditional (c : conn) (pick1 pick2 : nat) :
  Read c None pick1 pick2 = Returned (mkReadReturn 0 None None c)
  /\ (ctxDone c = true \/ deadline.Done (rxDeadline c) = true ->
      forall b, exists e,
        Read c (Some b) pick1 pick2
        = Returned (mkReadReturn 0 (Some e) (Some b) c)
        /\ (e = io_EOF \/ e = os_ErrDeadlineExceeded)).
Proof.
  split; [reflexivity|].
  intros H b. destruct (Read_pending_signalled c b pick1 H) as (e & E & He).
  exists e. unfold Read. rewrite E. split; [reflexivity|tauto].
Qed.

Lemma Read_nil_unconditional_witness :
  Read expired_closed_conn None 1 0
  = Returned (mkReadReturn 0 None None expired_closed_conn)
  /\ exists e,
      Read expired_closed_conn (Some (make 3)) 1 0
      = Returned (mkReadReturn 0 (Some e) (Some (make 3)) expired_closed_conn)
      /\ (e = io_EOF \/ e = os_ErrDeadlineExceeded).
Proof.
  split.
  - exact (proj1 (Read_nil_unconditional expired_closed_conn 1 0)).
  - exact (proj2 (Read_nil_unconditional expired_closed_conn 1 0)
             (or_introl eq_refl) (make 3)).
Defined.

(** C7, as stated, fails for buffers that are empty without being nil:
    on a closed connection [Read] and [Write] return end-of-stream for
    them; [Write] hands them to the wrapped connection; and a [Read] into
    one takes the chunk off the handoff queue and stores all of it in the
    pending buffer. *)
Lemma empty_buffer_is_not_a_noop :
  Read closed_conn (Some []) 0 0
  = Returned (mkReadReturn 0 (Some io_EOF) (Some []) closed_conn)
  /\ fst (Write closed_conn (Some []) None 0) = Returned (0%Z, Some io_EOF)
  /\ writes (inner (snd (Write closed_conn (Some []) None 0))) = [[]]
  /\ fst (Write (WithDeadlines hello_stream) (Some []) None 0) = Blocked
  /\ (let c := set_rxData (WithDeadlines hello_stream) (ChanSending hello_world) in
      Read c (Some []) 0 0
      = Returned (mkReadReturn 0 None (Some [])
                    (set_rxDataPending (WithDeadlines hello_stream) hello_world))).
Proof.
  repeat split.
Qed.

(** C7, amended.  [Read] with a nil destination buffer and [Write] with
    a nil source buffer each return zero bytes and no error, at once, and
    leave the whole connection as it was: the wrapped connection, the
    handoff queue and the pending-bytes buffer are not touched. *)
Theorem Read_Write_nil_noop
    (c : conn) (res : option txResult) (pick1 pick2 : nat) :
  Read c None pick1 pick2 = Returned (mkReadReturn 0 None None c)
  /\ Write c None res pick1 = (Returned (0%Z, None), c).
Proof.
  split; reflexivity.
Qed.

(** ** [Write] *)

Lemma Write_nonnil (c : conn) (b : list byte) (res : option txResult) (pick : nat) :
  Write c (Some b) res pick
  = (Write_wait (set_inner c (inner_Write (inner c) b)) res pick,
     set_inner c (inner_Write (inner c) b)).
Proof.
  unfold Write. now rewrite copy_make.
Qed.

(** C5, as stated, fails in two ways.  On a closed connection [Write]
    may return end-of-stream, whether the write deadline has passed with
    the wrapped write still running or the wrapped write has completed
    with the deadline not passed.  And on a connection that is not
    closed, once the deadline has passed and the wrapped write has
    completed, the [select] has two ready cases: [Write] may return
    deadline-exceeded although the write is complete, and may return the
    write's result although the deadline has passed. *)
Lemma Write_select_may_choose_otherwise :
  deadline.Done (txDeadline expired_closed_conn) = true
  /\ fst (Write expired_closed_conn (Some hello_world) None 0)
     = Returned (0%Z, Some io_EOF)
  /\ deadline.Done (txDeadline closed_conn) = false
  /\ fst (Write closed_conn (Some hello_world) (Some (mkTxResult 11 None)) 0)
     = Returned (0%Z, Some io_EOF)
  /\ (let c := fst (SetWriteDeadline 10 5 (WithDeadlines hello_stream)) in
      ctxDone c = false
      /\ deadline.Done (txDeadline c) = true
      /\ fst (Write c (Some hello_world) (Some (mkTxResult 11 None)) 0)
         = Returned (0%Z, Some os_ErrDeadlineExceeded)
      /\ fst (Write c (Some hello_world) (Some (mkTxResult 11 None)) 1)
         = Returned (11%Z, None)).
Proof.
  repeat split.
Qed.

(** C5, amended.  For every [Write] of a non-nil buffer on a connection
    whose cancellation signal is not set, at the moment its [select]
    chooses: if the write-deadline signal is set and the wrapped write
    has not completed, [Write] returns zero bytes and an error that
    [errors.Is] identifies with [os.ErrDeadlineExceeded] and that
    classifies as a timeout; if the wrapped write has completed and the
    write-deadline signal is not set, [Write] returns the wrapped write's
    [(n, err)] unchanged; if the signal is set and the write has
    completed, [Write] returns one of these two; and if neither has
    happened, it waits. *)
Theorem Write_deadline_or_result
    (c : conn) (b : list byte) (res : option txResult) (pick : nat) :
  ctxDone c = false ->
  (deadline.Done (txDeadline c) = true -> res = None ->
   exists e,
     fst (Write c (Some b) res pick) = Returned (0%Z, Some e)
     /\ errors_Is (Some e) os_ErrDeadlineExceeded = true
     /\ Timeout e = true)
  /\ (deadline.Done (txDeadline c) = false ->
      forall result, res = Some result ->
      fst (Write c (Some b) res pick) = Returned (tx_n result, tx_err result))
  /\ (deadline.Done (txDeadline c) = true ->
      forall result, res = Some result ->
      fst (Write c (Some b) res pick) = Returned (0%Z, Some os_ErrDeadlineExceeded)
      \/ fst (Write c (Some b) res pick) = Returned (tx_n result, tx_err result))
  /\ (deadline.Done (txDeadline c) = false -> res = None ->
      fst (Write c (Some b) res pick) = Blocked).
Proof.
  intros Hc. rewrite Write_nonnil. cbn [fst]. unfold Write_wait.
  cbn [ctxDone txDeadline set_inner]. rewrite Hc. split; [|split; [|split]].
  - intros Hd ->. rewrite Hd.
    rewrite (select_only _ pick TxDeadline) by reflexivity.
    exists os_ErrDeadlineExceeded. repeat split.
  - intros Hd result ->. rewrite Hd.
    rewrite (select_only _ pick TxResult) by reflexivity. reflexivity.
  - intros Hd result ->. rewrite Hd.
    destruct (select _ pick) as [k|] eqn:E.
    + apply select_In in E. cbn in E.
      destruct E as [<-|[<-|[]]]; [left|right]; reflexivity.
    + apply select_None in E. discriminate.
  - intros Hd ->. rewrite Hd.
    now rewrite select_default by (repeat constructor).
Qed.

Lemma Write_deadline_or_result_witness :
  (let c := fst (SetWriteDeadline 10 5 (WithDeadlines hello_stream)) in
   (exists e,
       fst (Write c (Some hello_world) None 0) = Returned (0%Z, Some e)
       /\ errors_Is (Some e) os_ErrDeadlineExceeded = true
       /\ Timeout e = true)
   /\ (fst (Write c (Some hello_world) (Some (mkTxResult 11 None)) 1)
       = Returned (0%Z, Some os_ErrDeadlineExceeded)
       \/ fst (Write c (Some hello_world) (Some (mkTxResult 11 None)) 1)
          = Returned (11%Z, None)))
  /\ fst (Write (WithDeadlines hello_stream) (Some hello_world)
            (Some (mkTxResult 11 None)) 0)
     = Returned (11%Z, None)
  /\ fst (Write (WithDeadlines hello_stream) (Some hello_world) None 0)
     = Blocked.
Proof.
  split; [split|split].
  - exact (proj1 (Write_deadline_or_result
                    (fst (SetWriteDeadline 10 5 (WithDeadlines hello_stream)))
                    hello_world None 0 eq_refl) eq_refl eq_refl).
  - exact (proj1 (proj2 (proj2 (Write_deadline_or_result
                    (fst (SetWriteDeadline 10 5 (WithDeadlines hello_stream)))
                    hello_world (Some (mkTxResult 11 None)) 1 eq_refl)))
             eq_refl (mkTxResult 11 None) eq_refl).
  - exact (proj1 (proj2 (Write_deadline_or_result
                    (WithDeadlines hello_stream)
                    hello_world (Some (mkTxResult 11 None)) 0 eq_refl))
             eq_refl (mkTxResult 11 None) eq_refl).
  - exact (proj2 (proj2 (proj2 (Write_deadline_or_result
                    (WithDeadlines hello_stream) hello_world None 0 eq_refl)))
             eq_refl eq_refl).
Defined.

(** ** What one [Read] does to the connection *)

Lemma set_rxDataPending_same (c : conn) : set_rxDataPending c (rxDataPending c) = c.
Proof. now destruct c. Qed.

Lemma delivered_of_copy (dst src : list byte) (e : option error) (c : conn) :
  delivered_of (mkReadReturn (Z.of_nat (fst (copy dst src))) e
                  (Some (snd (copy dst src))) c)
  = firstn (length dst) src.
Proof.
  unfold delivered_of. cbn [rr_buf rr_n]. rewrite Nat2Z.id. apply copy_prefix.
Qed.

(** The first [select] either reports a signal and changes nothing, or
    hands over the front of the pending bytes. *)
Lemma Read_pending_cases (c : conn) (b : list byte) (pick : nat) (r : read_return) :
  Read_pending c b pick = Some r ->
  (rr_conn r = c /\ rr_n r = 0%Z /\ delivered_of r = []
   /\ (rr_err r = Some io_EOF \/ rr_err r = Some os_ErrDeadlineExceeded)
   /\ (ctxDone c = true \/ deadline.Done (rxDeadline c) = true))
  \/ (ctxDone c = false /\ deadline.Done (rxDeadline c) = false
      /\ rxDataPending c <> []
      /\ rr_err r = None
      /\ rr_n r = Z.of_nat (Nat.min (length b) (length (rxDataPending c)))
      /\ delivered_of r = firstn (length b) (rxDataPending c)
      /\ rr_conn r = set_rxDataPending c (skipn (length b) (rxDataPending c))).
Proof.
  intros H.
  destruct (ctxDone c) eqn:Hc; [|destruct (deadline.Done (rxDeadline c)) eqn:Hd].
  - left. destruct (Read_pending_signalled c b pick (or_introl Hc)) as (e & E & He).
    rewrite E in H. injection H as <-. cbn. intuition (subst; auto).
  - left. destruct (Read_pending_signalled c b pick (or_intror Hd)) as (e & E & He).
    rewrite E in H. injection H as <-. cbn. intuition (subst; auto).
  - right. unfold Read_pending in H. rewrite Hc, Hd in H.
    rewrite select_default in H by (repeat constructor).
    destruct (0 <? length (rxDataPending c)) eqn:Hl; [|discriminate].
    apply Nat.ltb_lt in Hl.
    pose proof (copy_rest b (rxDataPending c)) as Hrest.
    pose proof (delivered_of_copy b (rxDataPending c) None
                  (set_rxDataPending c (skipn (fst (copy b (rxDataPending c)))
                                          (rxDataPending c)))) as Hdel.
    destruct (copy b (rxDataPending c)) as [n b'] eqn:Ecp.
    assert (Hn : n = Nat.min (length b) (length (rxDataPending c)))
      by (now rewrite <- copy_n, Ecp).
    cbn [fst snd] in *. injection H as <-. cbn [rr_err rr_n rr_conn].
    repeat split; try assumption.
    + intros E. rewrite E in Hl. cbn in Hl. lia.
    + now rewrite Hn.
    + now rewrite Hrest.
Qed.

Lemma Read_pending_None (c : conn) (b : list byte) (pick : nat) :
  Read_pending c b pick = None ->
  ctxDone c = false /\ deadline.Done (rxDeadline c) = false /\ rxDataPending c = [].
Proof.
  intros H.
  destruct (ctxDone c) eqn:Hc; [|destruct (deadline.Done (rxDeadline c)) eqn:Hd].
  - destruct (Read_pending_signalled c b pick (or_introl Hc)) as (e & E & _).
    congruence.
  - destruct (Read_pending_signalled c b pick (or_intror Hd)) as (e & E & _).
    congruence.
  - rewrite Read_pending_unsignalled in H by assumption.
    destruct (rxDataPending c); [auto|discriminate].
Qed.

(** The second [select] either reports a signal or a closed queue and
    changes nothing, or takes the chunk the pump is sending: the front
    of it goes to the caller, the rest behind the pending bytes. *)
Lemma Read_wait_cases (c : conn) (b : list byte) (pick : nat) (r : read_return) :
  Read_wait c b pick = Returned r ->
  (rr_conn r = c /\ rr_n r = 0%Z /\ delivered_of r = []
   /\ (rr_err r = Some io_EOF \/ rr_err r = Some os_ErrDeadlineExceeded)
   /\ (ctxDone c = true \/ deadline.Done (rxDeadline c) = true
       \/ rxData c = ChanClosed))
  \/ (exists data,
         rxData c = ChanSending data
         /\ rr_err r = None
         /\ rr_n r = Z.of_nat (Nat.min (length b) (length data))
         /\ delivered_of r = firstn (length b) data
         /\ rr_conn r = set_rxDataPending (set_rxData c ChanIdle)
                          (rxDataPending c ++ skipn (length b) data)).
Proof.
  unfold Read_wait. destruct (select _ pick) as [k|] eqn:E; [|discriminate].
  apply select_In in E. intros H. destruct k.
  - left. injection H as <-. cbn.
    destruct (ctxDone c); [tauto|].
    destruct (deadline.Done (rxDeadline c)), (chan_ready (rxData c));
      cbn in E; intuition discriminate.
  - left. injection H as <-. cbn.
    destruct (deadline.Done (rxDeadline c)); [tauto|].
    destruct (ctxDone c), (chan_ready (rxData c));
      cbn in E; intuition discriminate.
  - destruct (rxData c) as [|data|] eqn:Hch.
    + exfalso. destruct (ctxDone c), (deadline.Done (rxDeadline c));
        cbn in E; intuition discriminate.
    + right. exists data.
      pose proof (copy_rest b data) as Hrest.
      pose proof (copy_n b data) as Hn.
      pose proof (fun e c' => delivered_of_copy b data e c') as Hdel.
      destruct (copy b data) as [n b'] eqn:Ecp. cbn [fst snd] in *.
      injection H as <-. cbn [rr_err rr_n rr_conn].
      repeat split.
      * now rewrite Hn.
      * apply Hdel.
      * rewrite <- Hrest. destruct (n <? length data) eqn:Hlt; [reflexivity|].
        apply Nat.ltb_ge in Hlt. rewrite skipn_all2 by assumption.
        rewrite app_nil_r. symmetry.
        exact (set_rxDataPending_same (set_rxData c ChanIdle)).
    + left. injection H as <-. cbn. tauto.
Qed.

(** Whatever [Read] returns, its error is nil, end-of-stream or
    deadline-exceeded: an error of the wrapped connection's [Read] never
    reaches the caller. *)
Lemma Read_error_kinds (c : conn) (b : slice) (pick1 pick2 : nat) (r : read_return) :
  Read c b pick1 pick2 = Returned r ->
  rr_err r = None \/ rr_err r = Some io_EOF
  \/ rr_err r = Some os_ErrDeadlineExceeded.
Proof.
  unfold Read. destruct b as [buf|].
  - destruct (Read_pending c buf pick1) as [r'|] eqn:E.
    + intros H. injection H as <-.
      apply Read_pending_cases in E. intuition auto.
    + intros H. apply Read_wait_cases in H.
      destruct H as [H|(data & H)]; intuition auto.
  - intros H. injection H as <-. auto.
Qed.

(** ** The reader pump *)

Lemma pump_chunk (d : list byte) :
  firstn (length d) (snd (copy (make (length d)) (firstn (length d) d))) = d.
Proof.
  rewrite (firstn_all d), copy_make. apply firstn_all.
Qed.

(** One turn of the pump's loop on a connection that is not closed: a
    read that produced bytes puts exactly these bytes on the handoff
    queue; an error ends the loop, after the send when there is one. *)
Lemma pump_step_read (c : conn) (r : read_result) (i : netConn) :
  ctxDone c = false ->
  inner_Read (inner c) = Some (r, i) ->
  pump_step c PumpLoop =
    match rd_data r with
    | [] =>
        match rd_err r with
        | Some _ => Some (set_inner c i, PumpDeferClose)
        | None => Some (set_inner c i, PumpLoop)
        end
    | _ :: _ =>
        Some (set_rxData (set_inner c i) (ChanSending (rd_data r)),
              PumpSending (rd_err r))
    end.
Proof.
  intros Hc Hr. unfold pump_step. rewrite Hc, Hr.
  rewrite select_default by (repeat constructor).
  destruct (rd_data r) as [|x d] eqn:E; [reflexivity|].
  rewrite <- E, pump_chunk, E. reflexivity.
Qed.

Lemma pump_step_closed (c : conn) :
  ctxDone c = true -> pump_step c PumpLoop = Some (c, PumpDeferClose).
Proof.
  intros Hc. unfold pump_step. rewrite Hc.
  now rewrite (select_only [(true, tt)] 0 tt).
Qed.

(** ** Calls that leave the read path alone *)

Lemma Close_same_rx (c : conn) : same_rx c (fst (Close c)).
Proof. repeat split. Qed.

Lemma Write_same_rx (c : conn) (b : slice) (res : option txResult) (pick : nat) :
  same_rx c (snd (Write c b res pick)).
Proof. destruct b; repeat split. Qed.

Lemma SetReadDeadline_same_rx (now t : time) (c : conn) :
  same_rx c (fst (SetReadDeadline now t c)).
Proof.
  unfold SetReadDeadline. destruct (select _ 0); repeat split.
Qed.

Lemma SetWriteDeadline_same_rx (now t : time) (c : conn) :
  same_rx c (fst (SetWriteDeadline now t c)).
Proof.
  unfold SetWriteDeadline. destruct (select _ 0); repeat split.
Qed.

Lemma same_rx_trans (c1 c2 c3 : conn) :
  same_rx c1 c2 -> same_rx c2 c3 -> same_rx c1 c3.
Proof.
  unfold same_rx. intros (A1 & A2 & A3) (B1 & B2 & B3).
  repeat split; congruence.
Qed.

Lemma SetDeadline_same_rx (now t : time) (c : conn) :
  same_rx c (fst (SetDeadline now t c)).
Proof.
  unfold SetDeadline.
  pose proof (SetReadDeadline_same_rx now t c) as H.
  destruct (SetReadDeadline now t c) as [c1 [e|]]; cbn [fst] in *; [exact H|].
  eapply same_rx_trans; [exact H|apply SetWriteDeadline_same_rx].
Qed.

(** ** The invariant holds throughout *)

Lemma sys_inv_init (i : netConn) : sys_inv (stream_bytes i) (system_init i).
Proof.
  repeat split; try discriminate.
Qed.

Lemma sys_inv_same_rx (total : list byte) (s : system) (c' : conn) :
  sys_inv total s -> same_rx (sys_conn s) c' -> sys_inv total (with_conn s c').
Proof.
  unfold sys_inv, same_rx, in_flight, stream_bytes. cbn [with_conn sys_conn
    sys_pump sys_reader sys_delivered].
  intros (Hb & Hk & Hr & Hp) (E1 & E2 & E3). rewrite E1, E2, E3. auto.
Qed.

Lemma inner_Read_bytes (i i' : netConn) (r : read_result) :
  inner_Read i = Some (r, i') -> stream_bytes i = rd_data r ++ stream_bytes i'.
Proof.
  unfold inner_Read, stream_bytes. destruct (reads i) as [|r0 rest]; [discriminate|].
  intros H. injection H as <- <-. reflexivity.
Qed.

Lemma sys_inv_pump (total : list byte) (s : system) (c' : conn) (pc' : pump_pc) :
  sys_inv total s ->
  pump_step (sys_conn s) (sys_pump s) = Some (c', pc') ->
  sys_inv total (mkSystem c' pc' (sys_reader s) (sys_returns s) (sys_delivered s)).
Proof.
  destruct s as [c pc rd rets dl]. unfold sys_inv, in_flight.
  cbn [sys_conn sys_pump sys_reader sys_delivered].
  intros (Hb & Hk & Hr & Hp) H. destruct pc; cbn [pump_coherent] in Hp.
  - destruct (ctxDone c) eqn:Hc.
    + rewrite pump_step_closed in H by assumption. injection H as <- <-.
      cbn [pump_coherent]. auto.
    + destruct (inner_Read (inner c)) as [[r i]|] eqn:Hi.
      * rewrite (pump_step_read c r i Hc Hi) in H.
        apply inner_Read_bytes in Hi. rewrite Hi, Hp in Hb.
        destruct (rd_data r) as [|x d] eqn:Ed.
        -- destruct (rd_err r); injection H as <- <-;
             cbn [rxData rxDataPending inner set_inner pump_coherent];
             rewrite Hp; repeat split; auto; discriminate.
        -- injection H as <- <-.
           cbn [rxData rxDataPending inner set_inner set_rxData pump_coherent].
           repeat split; auto; try discriminate.
           intros d' E. injection E as <-. discriminate.
      * unfold pump_step in H. rewrite Hc, Hi in H.
        rewrite select_default in H by (repeat constructor). discriminate.
  - unfold pump_step in H. destruct (rxData c) eqn:Ech; try discriminate.
    destruct err; injection H as <- <-; rewrite Ech; cbn [pump_coherent];
      repeat split; auto; discriminate.
  - cbn [pump_step] in H. injection H as <- <-.
    cbn [Close inner_Close fst rxData rxDataPending inner set_inner set_ctxDone
           pump_coherent stream_bytes reads] in *.
    unfold stream_bytes in *. cbn [reads]. auto.
  - cbn [pump_step] in H. injection H as <- <-.
    cbn [rxData rxDataPending inner set_rxData pump_coherent].
    rewrite Hp in Hb. repeat split; auto; discriminate.
  - discriminate.
Qed.

Lemma sys_inv_read_pending
    (total : list byte) (s : system) (b : list byte) (pick : nat) (r : read_return) :
  sys_inv total s -> sys_reader s = None ->
  Read_pending (sys_conn s) b pick = Some r ->
  sys_inv total (read_returns s r).
Proof.
  destruct s as [c pc rd rets dl]. unfold sys_inv, read_returns.
  cbn [sys_conn sys_pump sys_reader sys_delivered].
  intros (Hb & Hk & Hr & Hp) -> H.
  apply Read_pending_cases in H.
  destruct H as [(Ec & _ & Ed & _)|(_ & _ & _ & _ & _ & Ed & Ec)]; rewrite Ec, Ed.
  - rewrite app_nil_r. repeat split; auto; congruence.
  - unfold in_flight in *. cbn [rxData rxDataPending inner set_rxDataPending].
    repeat split; auto; try congruence.
    rewrite <- Hb, <- app_assoc.
    rewrite (app_assoc (firstn _ _)), firstn_skipn. reflexivity.
Qed.

Lemma sys_inv_read_wait
    (total : list byte) (s : system) (b : list byte) (pick : nat) (r : read_return) :
  sys_inv total s -> sys_reader s = Some b ->
  Read_wait (sys_conn s) b pick = Returned r ->
  sys_inv total (read_returns s r).
Proof.
  destruct s as [c pc rd rets dl]. unfold sys_inv, read_returns.
  cbn [sys_conn sys_pump sys_reader sys_delivered].
  intros (Hb & Hk & Hr & Hp) -> H.
  assert (Hpend : rxDataPending c = []) by (apply Hr; discriminate).
  apply Read_wait_cases in H.
  destruct H as [(Ec & _ & Ed & _)|(data & Ech & _ & _ & Ed & Ec)]; rewrite Ec, Ed.
  - rewrite app_nil_r. repeat split; auto; congruence.
  - unfold in_flight in *.
    cbn [rxData rxDataPending inner set_rxDataPending set_rxData].
    rewrite Ech, Hpend in *. cbn [app] in *.
    repeat split; try congruence; try discriminate.
    + rewrite <- Hb, <- app_assoc.
      rewrite (app_assoc (firstn _ _)), firstn_skipn. reflexivity.
    + destruct pc; cbn [pump_coherent] in *; congruence.
Qed.

Lemma sys_inv_step (total : list byte) (e : event) (s s' : system) :
  sys_inv total s -> step e s = Some s' -> sys_inv total s'.
Proof.
  intros Hinv H. destruct e; cbn [step] in H.
  - destruct (pump_step (sys_conn s) (sys_pump s)) as [[c' pc']|] eqn:E;
      [|discriminate].
    injection H as <-. now apply sys_inv_pump.
  - destruct (sys_reader s) eqn:Hrd; [discriminate|]. destruct b as [buf|].
    + destruct (Read_pending (sys_conn s) buf pick) as [r|] eqn:E;
        injection H as <-.
      * eapply sys_inv_read_pending; eassumption.
      * apply Read_pending_None in E. destruct E as (_ & _ & Hp).
        destruct Hinv as (Hb & Hk & _ & Hpc). repeat split; auto.
    + injection H as <-. destruct Hinv as (Hb & Hk & _ & Hpc).
      unfold sys_inv, read_returns, delivered_of.
      cbn [sys_conn sys_pump sys_reader sys_delivered rr_conn rr_buf].
      rewrite app_nil_r. repeat split; auto; congruence.
  - destruct (sys_reader s) as [buf|] eqn:Hrd; [|discriminate].
    destruct (Read_wait (sys_conn s) buf pick) as [r|] eqn:E; [|discriminate].
    injection H as <-. eapply sys_inv_read_wait; eassumption.
  - injection H as <-. apply sys_inv_same_rx, Write_same_rx. assumption.
  - injection H as <-. apply sys_inv_same_rx, Close_same_rx. assumption.
  - injection H as <-. apply sys_inv_same_rx, SetDeadline_same_rx. assumption.
  - injection H as <-. apply sys_inv_same_rx, SetReadDeadline_same_rx. assumption.
  - injection H as <-. apply sys_inv_same_rx, SetWriteDeadline_same_rx. assumption.
  - injection H as <-. apply sys_inv_same_rx; [assumption|]. repeat split.
Qed.

Lemma sys_inv_run (total : list byte) (es : list event) (s s' : system) :
  sys_inv total s -> run es s = Some s' -> sys_inv total s'.
Proof.
  revert s. induction es as [|e es IH]; intros s Hinv H; cbn [run] in H.
  - now injection H as <-.
  - destruct (step e s) as [s1|] eqn:E; [|discriminate].
    eapply IH; [|exact H]. eapply sys_inv_step; eassumption.
Qed.

(** ** After the cancellation signal *)

Lemma pump_step_keeps (c c' : conn) (pc pc' : pump_pc) :
  pump_step c pc = Some (c', pc') ->
  rxDataPending c' = rxDataPending c
  /\ (ctxDone c = true -> ctxDone c' = true).
Proof.
  destruct pc; cbn [pump_step].
  - destruct (ctxDone c) eqn:Hc.
    + rewrite (select_only [(true, tt)] 0 tt) by reflexivity.
      intros H. injection H as <- <-. auto.
    + rewrite select_default by (repeat constructor).
      destruct (inner_Read (inner c)) as [[r i]|]; [|discriminate].
      destruct (0 <? length (rd_data r)); [|destruct (rd_err r)];
        intros H; injection H as <- <-; split; auto; discriminate.
  - destruct (rxData c); try discriminate.
    destruct err; intros H; injection H as <- <-; auto.
  - intros H. injection H as <- <-. auto.
  - intros H. injection H as <- <-. auto.
  - discriminate.
Qed.

Lemma setters_keep_ctxDone (now t : time) (c : conn) :
  ctxDone (fst (SetReadDeadline now t c)) = ctxDone c
  /\ ctxDone (fst (SetWriteDeadline now t c)) = ctxDone c
  /\ ctxDone (fst (SetDeadline now t c)) = ctxDone c.
Proof.
  assert (Hr : forall c0, ctxDone (fst (SetReadDeadline now t c0)) = ctxDone c0)
    by (intros c0; unfold SetReadDeadline; now destruct (select _ 0)).
  assert (Hw : forall c0, ctxDone (fst (SetWriteDeadline now t c0)) = ctxDone c0)
    by (intros c0; unfold SetWriteDeadline; now destruct (select _ 0)).
  repeat split; auto.
  unfold SetDeadline. specialize (Hr c).
  destruct (SetReadDeadline now t c) as [c1 [e|]]; cbn [fst] in *; [exact Hr|].
  now rewrite Hw.
Qed.

(** On a closed connection with no [Read] in progress, nothing that can
    happen returns a byte to a caller or changes the pending buffer, and
    the connection stays closed. *)
Lemma closed_idle_step (e : event) (s s' : system) :
  ctxDone (sys_conn s) = true -> sys_reader s = None ->
  step e s = Some s' ->
  ctxDone (sys_conn s') = true /\ sys_reader s' = None
  /\ sys_delivered s' = sys_delivered s
  /\ rxDataPending (sys_conn s') = rxDataPending (sys_conn s).
Proof.
  intros Hc Hrd H.
  destruct e; cbn [step] in H.
  - destruct (pump_step (sys_conn s) (sys_pump s)) as [[c' pc']|] eqn:E;
      [|discriminate].
    injection H as <-. apply pump_step_keeps in E. cbn. tauto.
  - rewrite Hrd in H. destruct b as [buf|].
    + destruct (Read_pending_signalled (sys_conn s) buf pick (or_introl Hc))
        as (err & E & _).
      rewrite E in H. injection H as <-. cbn. rewrite app_nil_r. auto.
    + injection H as <-. cbn. rewrite app_nil_r. auto.
  - rewrite Hrd in H. discriminate.
  - injection H as <-. cbn [with_conn sys_conn sys_reader sys_delivered].
    destruct b; cbn; auto.
  - injection H as <-. cbn. auto.
  - injection H as <-. cbn [with_conn sys_conn sys_reader sys_delivered].
    destruct (setters_keep_ctxDone now t (sys_conn s)) as (_ & _ & E).
    destruct (SetDeadline_same_rx now t (sys_conn s)) as (_ & E2 & _).
    rewrite E, E2. auto.
  - injection H as <-. cbn [with_conn sys_conn sys_reader sys_delivered].
    destruct (setters_keep_ctxDone now t (sys_conn s)) as (E & _ & _).
    destruct (SetReadDeadline_same_rx now t (sys_conn s)) as (_ & E2 & _).
    rewrite E, E2. auto.
  - injection H as <-. cbn [with_conn sys_conn sys_reader sys_delivered].
    destruct (setters_keep_ctxDone now t (sys_conn s)) as (_ & E & _).
    destruct (SetWriteDeadline_same_rx now t (sys_conn s)) as (_ & E2 & _).
    rewrite E, E2. auto.
  - injection H as <-. cbn. auto.
Qed.

Lemma closed_idle_run (es : list event) (s s' : system) :
  ctxDone (sys_conn s) = true -> sys_reader s = None ->
  run es s = Some s' ->
  ctxDone (sys_conn s') = true /\ sys_reader s' = None
  /\ sys_delivered s' = sys_delivered s
  /\ rxDataPending (sys_conn s') = rxDataPending (sys_conn s).
Proof.
  revert s. induction es as [|e es IH]; intros s Hc Hrd H; cbn [run] in H.
  - injection H as <-. auto.
  - destruct (step e s) as [s1|] eqn:E; [|discriminate].
    destruct (closed_idle_step e s s1 Hc Hrd E) as (Hc1 & Hrd1 & Hd1 & Hp1).
    destruct (IH s1 Hc1 Hrd1 H) as (Hc2 & Hrd2 & Hd2 & Hp2).
    repeat split; congruence.
Qed.

(** C8, as stated, fails when the read deadline has passed as well: the
    first [select] of [Read] then has two ready cases, and the call may
    return deadline-exceeded instead of end-of-stream. *)
Lemma Read_closed_may_return_deadline_exceeded :
  ctxDone expired_closed_conn = true
  /\ Read expired_closed_conn (Some (make 5)) 1 0
     = Returned (mkReadReturn 0 (Some os_ErrDeadlineExceeded) (Some (make 5))
                   expired_closed_conn).
Proof.
  split; reflexivity.
Qed.

(** C8, amended.  Once the cancellation signal is set, every [Read] with
    a non-nil buffer returns zero bytes and an error, and changes
    nothing, even when the pending-bytes buffer holds undelivered bytes:
    the error is end-of-stream, or possibly deadline-exceeded when the
    read-deadline signal is set too, and it is end-of-stream whenever
    that signal is not set.  From then on, whatever the pump, the timers
    and the callers do, no byte is returned to any caller and the pending
    buffer keeps what it held; this is for a connection on which no
    [Read] is waiting in its second [select], and where one is waiting
    the pending buffer is empty. *)
Theorem Read_after_close_delivers_nothing
    (s : system) (b : list byte) (pick1 pick2 : nat) :
  ctxDone (sys_conn s) = true ->
  (exists e,
      Read (sys_conn s) (Some b) pick1 pick2
      = Returned (mkReadReturn 0 (Some e) (Some b) (sys_conn s))
      /\ (e = io_EOF
          \/ (e = os_ErrDeadlineExceeded
              /\ deadline.Done (rxDeadline (sys_conn s)) = true)))
  /\ (deadline.Done (rxDeadline (sys_conn s)) = false ->
      Read (sys_conn s) (Some b) pick1 pick2
      = Returned (mkReadReturn 0 (Some io_EOF) (Some b) (sys_conn s)))
  /\ (sys_reader s = None ->
      forall es s',
        run es s = Some s' ->
        ctxDone (sys_conn s') = true
        /\ sys_delivered s' = sys_delivered s
        /\ rxDataPending (sys_conn s') = rxDataPending (sys_conn s))
  /\ (forall i es,
         run es (system_init i) = Some s ->
         sys_reader s <> None -> rxDataPending (sys_conn s) = []).
Proof.
  intros Hc. split; [|split; [|split]].
  - now apply Read_closed.
  - intros Hd. now apply Read_closed_EOF.
  - intros Hrd es s' H.
    destruct (closed_idle_run es s s' Hc Hrd H) as (? & _ & ? & ?). auto.
  - intros i es Hrun.
    destruct (sys_inv_run _ es _ s (sys_inv_init i) Hrun) as (_ & _ & Hr & _).
    exact Hr.
Qed.

Lemma Read_after_close_delivers_nothing_witness :
  rxDataPending (sys_conn hello_closed_system) = list_byte_of_string " world"
  /\ Read (sys_conn hello_closed_system) (Some (make 5)) 0 0
     = Returned (mkReadReturn 0 (Some io_EOF) (Some (make 5))
                   (sys_conn hello_closed_system)).
Proof.
  split; [reflexivity|].
  apply (proj1 (proj2 (Read_after_close_delivers_nothing
                         hello_closed_system (make 5) 0 0 eq_refl))).
  reflexivity.
Defined.

(** ** Reading a stream through small buffers *)

(** C1.  The code departs from the claim at the end of a stream.  The
    wrapped connection produces "hello world" in one read and reports
    end-of-stream on the next; nobody calls [Close] or sets a deadline.
    A [Read] into five bytes returns "hello" and stores " world" in the
    pending buffer, "to be read on the next Read() call" as the code
    says; the pump then sees the end of the stream and runs its deferred
    [c.Close()].  From this state every [Read] with a non-nil buffer
    returns zero bytes with end-of-stream, and whatever sequence of calls
    follows, " world" stays in the pending buffer and the bytes returned
    to the caller remain "hello": the byte sequence the stream produced
    is not returned. *)
Theorem Read_after_stream_end_loses_pending :
  stream_bytes hello_stream = list_byte_of_string "hello world"
  /\ hello_then_stream_end
     = [EvPump; EvRead (Some (make 5)) 0; EvReadResume 0;
        EvPump; EvPump; EvPump]
  /\ run hello_then_stream_end (system_init hello_stream)
     = Some hello_closed_system
  /\ sys_returns hello_closed_system = [(5%Z, None)]
  /\ sys_delivered hello_closed_system = list_byte_of_string "hello"
  /\ rxDataPending (sys_conn hello_closed_system)
     = list_byte_of_string " world"
  /\ rxDeadline (sys_conn hello_closed_system) = deadline.New
  /\ (forall b pick1 pick2,
         Read (sys_conn hello_closed_system) (Some b) pick1 pick2
         = Returned (mkReadReturn 0 (Some io_EOF) (Some b)
                       (sys_conn hello_closed_system)))
  /\ (forall es s',
         run es hello_closed_system = Some s' ->
         sys_delivered s' = list_byte_of_string "hello"
         /\ rxDataPending (sys_conn s') = list_byte_of_string " world").
Proof.
  do 7 (split; [reflexivity|]). split.
  - intros b pick1 pick2. now apply Read_closed_EOF.
  - intros es s' H.
    destruct (closed_idle_run es hello_closed_system s' eq_refl eq_refl H)
      as (_ & _ & Hd & Hp).
    rewrite Hd, Hp. split; reflexivity.
Qed.

Lemma Read_after_stream_end_loses_pending_witness :
  let es := [EvRead (Some (make 5)) 0; EvRead (Some (make 6)) 1; EvPump;
             EvRead (Some (make 1)) 0] in
  let s' := match run es hello_closed_system with
            | Some x => x
            | None => hello_closed_system
            end in
  run es hello_closed_system = Some s'
  /\ sys_returns s'
     = [(5%Z, None); (0%Z, Some io_EOF); (0%Z, Some io_EOF); (0%Z, Some io_EOF)]
  /\ sys_delivered s' = list_byte_of_string "hello"
  /\ rxDataPending (sys_conn s') = list_byte_of_string " world".
Proof.
  intros es s'. split; [reflexivity|]. split; [reflexivity|].
  exact (proj2 (proj2 (proj2 (proj2 (proj2 (proj2 (proj2 (proj2
           Read_after_stream_end_loses_pending)))))))
           es s' eq_refl).
Defined.

Lemma offer_spec (c c0 : conn) (q q0 : list (list byte)) :
  rx_live c q -> offer c q = (c0, q0) ->
  rx_live c0 q0
  /\ rxDataPending c0 = rxDataPending c
  /\ in_flight c0 ++ concat q0 = in_flight c ++ concat q
  /\ (rxData c0 = ChanIdle -> q0 = []).
Proof.
  unfold rx_live, offer, in_flight. intros (Hc & Hd & Hcl & Hk & Hq).
  destruct (rxData c) eqn:Ech.
  - destruct q as [|d q'].
    + intros H. injection H as <- <-. rewrite Ech. repeat split; auto.
    + intros H. injection H as <- <-. cbn.
      inversion Hq; subst. repeat split; auto; try discriminate.
      intros d' E. now injection E as <-.
  - intros H. injection H as <- <-. rewrite Ech.
    repeat split; auto; try discriminate.
  - congruence.
Qed.

(** In normal operation a [Read] that returns has no error; the bytes it
    returns are the front of what was pending or on the queue, the rest
    is pending afterwards; and a non-empty buffer gets at least one
    byte. *)
Lemma Read_live (c : conn) (q : list (list byte)) (b : list byte)
    (pick1 pick2 : nat) (r : read_return) :
  rx_live c q ->
  Read c (Some b) pick1 pick2 = Returned r ->
  rr_err r = None
  /\ rx_live (rr_conn r) q
  /\ delivered_of r ++ rxDataPending (rr_conn r) ++ in_flight (rr_conn r)
     = rxDataPending c ++ in_flight c
  /\ (b <> [] -> delivered_of r <> []).
Proof.
  unfold rx_live, in_flight. intros (Hc & Hd & Hcl & Hk & Hq). unfold Read.
  destruct (Read_pending c b pick1) as [r'|] eqn:E.
  - intros H. injection H as ->. apply Read_pending_cases in E.
    destruct E as [(_ & _ & _ & _ & [E|E])|(_ & _ & Hp & He & _ & Hdl & Hcn)];
      try congruence.
    rewrite Hdl, Hcn. cbn [ctxDone rxDeadline rxData rxDataPending set_rxDataPending].
    repeat split; auto.
    + now rewrite app_assoc, firstn_skipn.
    + intros Hb E. destruct b; [congruence|].
      destruct (rxDataPending c); [congruence|]. discriminate.
  - intros H. apply Read_pending_None in E. destruct E as (_ & _ & Hp).
    apply Read_wait_cases in H.
    destruct H as [(_ & _ & _ & _ & [E|[E|E]])|(data & Ech & He & _ & Hdl & Hcn)];
      try congruence.
    rewrite Hdl, Hcn, Hp, Ech.
    cbn [ctxDone rxDeadline rxData rxDataPending set_rxDataPending set_rxData app].
    repeat split; auto; try discriminate.
    + now rewrite app_nil_r, firstn_skipn.
    + intros Hb E. destruct b; [congruence|].
      specialize (Hk data Ech). destruct data; [congruence|]. discriminate.
Qed.

Lemma Read_live_blocked (c : conn) (b : list byte) (pick1 pick2 : nat) :
  Read c (Some b) pick1 pick2 = Blocked ->
  rxDataPending c = [] /\ rxData c = ChanIdle.
Proof.
  unfold Read. destruct (Read_pending c b pick1) eqn:E; [discriminate|].
  apply Read_pending_None in E. destruct E as (_ & _ & Hp).
  unfold Read_wait. destruct (select _ pick2) as [k|] eqn:Es.
  - destruct k; try discriminate.
    destruct (rxData c); discriminate.
  - intros _. split; [assumption|]. apply select_None in Es.
    destruct (ctxDone c), (deadline.Done (rxDeadline c)), (rxData c);
      cbn in Es; congruence.
Qed.

Lemma read_all_spec (calls : list read_call) :
  forall (c : conn) (q : list (list byte))
         (rs : list read_return) (c' : conn) (q' : list (list byte)),
    rx_live c q ->
    read_all c q calls = (rs, c', q') ->
    Forall (fun r => rr_err r = None) rs
    /\ concat (map delivered_of rs) ++ rxDataPending c' ++ in_flight c' ++ concat q'
       = rxDataPending c ++ in_flight c ++ concat q
    /\ (length rs < length calls ->
        rxDataPending c' = [] /\ in_flight c' = [] /\ q' = [])
    /\ (Forall (fun k => rc_buf k <> []) calls ->
        length rs <= length (concat (map delivered_of rs))).
Proof.
  induction calls as [|k calls IH]; intros c q rs c' q' Hlive H; cbn [read_all] in H.
  - injection H as <- <- <-. cbn. repeat split; auto; lia.
  - destruct (offer c q) as [c0 q0] eqn:Eo.
    destruct (offer_spec c c0 q q0 Hlive Eo) as (Hlive0 & Hp0 & Hf0 & Hidle).
    destruct (Read c0 (Some (rc_buf k)) (rc_pick1 k) (rc_pick2 k)) as [r|] eqn:Er.
    + destruct (read_all (rr_conn r) q0 calls) as [[rs1 c1] q1] eqn:Ea.
      injection H as <- <- <-.
      destruct (Read_live c0 q0 _ _ _ r Hlive0 Er) as (He & Hlive1 & Hcons & Hne).
      destruct (IH _ _ _ _ _ Hlive1 Ea) as (IHe & IHcons & IHblk & IHlen).
      cbn [map concat length]. repeat split.
      * now constructor.
      * rewrite <- app_assoc, IHcons.
        rewrite !app_assoc. rewrite <- (app_assoc (delivered_of r)), Hcons.
        rewrite Hp0, <- !app_assoc. now rewrite Hf0.
      * apply IHblk. lia.
      * apply IHblk. lia.
      * apply IHblk. lia.
      * intros Hk. inversion Hk; subst. rewrite length_app.
        specialize (IHlen H2). specialize (Hne H1).
        destruct (delivered_of r); [congruence|]. cbn [length]. lia.
    + injection H as <- <- <-.
      destruct (Read_live_blocked c0 _ _ _ Er) as (Hp & Hch).
      cbn [map concat length app]. unfold in_flight in *.
      repeat split; auto; try lia.
      * rewrite <- Hp0. now rewrite <- Hf0.
      * now rewrite Hch.
Qed.

(** The read path in normal operation.  In every state the connection
    can reach, whatever the interleaving of pump, callers, timers and
    [Close], the bytes returned
    by [Read] so far, the pending bytes, the chunk on the queue and the
    bytes the wrapped connection has still to produce are, in this
    order, exactly its byte sequence: no byte is returned twice, out of
    order, or before an earlier one; and a [Read] that has to wait finds
    every byte the pump has taken already returned.  A caller who calls
    [Read] again and again, with non-nil buffers of any sizes, on a
    connection whose cancellation and read-deadline signals are not set,
    while the pump hands over the non-empty chunks [q] in order, gets no
    error; it has received all the bytes that were pending or in [q] as
    soon as one of its calls has to wait, and in any case when its
    buffers are non-empty and it makes at least as many calls as there
    are bytes.  When the chunk taken from the queue is longer than the
    buffer, [Read] returns its first [len(b)] bytes and the pending
    buffer becomes the remainder. *)
Theorem Read_delivers_stream_in_order :
  (forall (i : netConn) (es : list event) (s : system),
      run es (system_init i) = Some s ->
      sys_delivered s ++ rxDataPending (sys_conn s) ++ in_flight (sys_conn s)
        ++ stream_bytes (inner (sys_conn s)) = stream_bytes i
      /\ (forall b pick,
             sys_reader s = Some b ->
             Read_wait (sys_conn s) b pick = Blocked ->
             sys_delivered s ++ stream_bytes (inner (sys_conn s))
             = stream_bytes i))
  /\ (forall (c : conn) (q : list (list byte)) (calls : list read_call)
             (rs : list read_return) (c' : conn) (q' : list (list byte)),
         ctxDone c = false ->
         deadline.Done (rxDeadline c) = false ->
         rxData c = ChanIdle ->
         Forall (fun d => d <> []) q ->
         read_all c q calls = (rs, c', q') ->
         Forall (fun r => rr_err r = None) rs
         /\ concat (map delivered_of rs) ++ rxDataPending c' ++ in_flight c'
              ++ concat q'
            = rxDataPending c ++ concat q
         /\ (length rs < length calls ->
             concat (map delivered_of rs) = rxDataPending c ++ concat q)
         /\ (Forall (fun k => rc_buf k <> []) calls ->
             length (rxDataPending c ++ concat q) <= length calls ->
             concat (map delivered_of rs) = rxDataPending c ++ concat q)
         /\ (forall data b pick1 pick2,
                rxDataPending c = [] -> length b < length data ->
                Read (set_rxData c (ChanSending data)) (Some b) pick1 pick2
                = Returned (mkReadReturn (Z.of_nat (length b)) None
                              (Some (firstn (length b) data))
                              (set_rxDataPending c (skipn (length b) data))))).
Proof.
  split.
  { intros i es s Hrun.
    destruct (sys_inv_run _ es _ s (sys_inv_init i) Hrun) as (Hb & _ & Hr & _).
    split; [exact Hb|]. intros b pick Hrd Hblk.
    rewrite Hr in Hb by congruence. cbn [app] in Hb.
    unfold Read_wait in Hblk. destruct (select _ pick) as [k|] eqn:E.
    - destruct k; try discriminate. destruct (rxData (sys_conn s)); discriminate.
    - apply select_None in E. unfold in_flight in Hb.
      destruct (ctxDone (sys_conn s)), (deadline.Done (rxDeadline (sys_conn s))),
        (rxData (sys_conn s)); cbn in E; try discriminate. exact Hb. }
  intros c q calls rs c' q' Hc Hd Hch Hq H.
  assert (Hlive : rx_live c q).
  { unfold rx_live. rewrite Hch. repeat split; auto; discriminate. }
  destruct (read_all_spec calls c q rs c' q' Hlive H)
    as (He & Hcons & Hblk & Hlen).
  unfold in_flight in Hcons at 2. rewrite Hch in Hcons. cbn [app] in Hcons.
  assert (Hall : rxDataPending c' ++ in_flight c' ++ concat q' = [] ->
                 concat (map delivered_of rs) = rxDataPending c ++ concat q).
  { intros E. rewrite E, app_nil_r in Hcons. exact Hcons. }
  split; [exact He|]. split; [exact Hcons|]. split; [|split].
  - intros Hlt. apply Hall. destruct (Hblk Hlt) as (-> & -> & ->). reflexivity.
  - intros Hk Hn. apply Hall. specialize (Hlen Hk).
    apply (f_equal (@length byte)) in Hcons. rewrite length_app in Hcons.
    destruct (Nat.lt_ge_cases (length rs) (length calls)) as [Hlt|Hge].
    + destruct (Hblk Hlt) as (-> & -> & ->). reflexivity.
    + apply length_zero_iff_nil. lia.
  - intros data b pick1 pick2 Hp Hb. unfold Read.
    rewrite Read_pending_unsignalled by assumption.
    cbn [rxDataPending set_rxData]. rewrite Hp. cbn [length Nat.ltb Nat.leb].
    unfold Read_wait. cbn [ctxDone rxDeadline rxData set_rxData]. rewrite Hc, Hd.
    rewrite (select_only _ pick2 RxData) by reflexivity.
    unfold copy. rewrite Nat.min_l by lia.
    apply Nat.ltb_lt in Hb. rewrite Hb.
    rewrite skipn_all, app_nil_r. cbn [rxDataPending set_rxData]. rewrite Hp.
    cbn [app]. do 2 f_equal.
    destruct c; cbn in *; subst; reflexivity.
Qed.

Lemma Read_delivers_stream_in_order_witness :
  (sys_delivered hello_closed_system
     ++ rxDataPending (sys_conn hello_closed_system)
     ++ in_flight (sys_conn hello_closed_system)
     ++ stream_bytes (inner (sys_conn hello_closed_system))
   = stream_bytes hello_stream)
  /\ (let calls := [mkCall (make 5) 0 0; mkCall (make 5) 1 2;
                    mkCall (make 1) 0 1; mkCall (make 1) 3 0] in
      map delivered_of (fst (fst (read_all (WithDeadlines hello_stream)
                                     [hello_world] calls)))
      = [list_byte_of_string "hello"; list_byte_of_string " worl";
         list_byte_of_string "d"]
      /\ concat (map delivered_of
                   (fst (fst (read_all (WithDeadlines hello_stream)
                                [hello_world] calls))))
         = hello_world)
  /\ (let calls := [mkCall (make 1) 0 0; mkCall (make 1) 0 0] in
      concat (map delivered_of
                (fst (fst (read_all (WithDeadlines hello_stream)
                             [list_byte_of_string "hi"] calls))))
      = list_byte_of_string "hi").
Proof.
  split; [|split].
  - exact (proj1 (proj1 Read_delivers_stream_in_order
                    hello_stream hello_then_stream_end hello_closed_system
                    eq_refl)).
  - intros calls. split; [reflexivity|].
    assert (Hq : Forall (fun d : list byte => d <> []) [hello_world])
      by (repeat constructor; discriminate).
    apply (proj1 (proj2 (proj2
             (proj2 Read_delivers_stream_in_order
                (WithDeadlines hello_stream) [hello_world] calls
                (fst (fst (read_all (WithDeadlines hello_stream) [hello_world] calls)))
                (snd (fst (read_all (WithDeadlines hello_stream) [hello_world] calls)))
                (snd (read_all (WithDeadlines hello_stream) [hello_world] calls))
                eq_refl eq_refl eq_refl Hq eq_refl)))).
    cbn. lia.
  - intros calls.
    assert (Hq : Forall (fun d : list byte => d <> []) [list_byte_of_string "hi"])
      by (repeat constructor; discriminate).
    assert (Hk : Forall (fun k => rc_buf k <> []) calls)
      by (repeat constructor; discriminate).
    apply (proj1 (proj2 (proj2 (proj2
             (proj2 Read_delivers_stream_in_order
                (WithDeadlines hello_stream) [list_byte_of_string "hi"] calls
                (fst (fst (read_all (WithDeadlines hello_stream)
                             [list_byte_of_string "hi"] calls)))
                (snd (fst (read_all (WithDeadlines hello_stream)
                             [list_byte_of_string "hi"] calls)))
                (snd (read_all (WithDeadlines hello_stream)
                        [list_byte_of_string "hi"] calls))
                eq_refl eq_refl eq_refl Hq eq_refl)))) Hk).
    cbn. lia.
Defined.

(** ** Chunks on the handoff queue *)

(** C9.  In every state the connection can reach, the chunk the pump has
    put on the handoff queue is non-empty: the pump publishes only after
    a read that returned [n > 0] bytes, and then publishes exactly these
    [n] bytes; after a read of zero bytes it leaves the queue alone.
    Consequently a [Read] with a non-empty buffer that returns without
    error, in particular one that received a chunk from the queue,
    returns at least one byte, never [(0, nil)]. *)
Theorem pump_publishes_nonempty_chunks
    (i : netConn) (es : list event) (s : system) :
  run es (system_init i) = Some s ->
  (forall d, rxData (sys_conn s) = ChanSending d -> d <> [])
  /\ (forall r i',
         ctxDone (sys_conn s) = false ->
         inner_Read (inner (sys_conn s)) = Some (r, i') ->
         (rd_data r <> [] ->
          pump_step (sys_conn s) PumpLoop
          = Some (set_rxData (set_inner (sys_conn s) i') (ChanSending (rd_data r)),
                  PumpSending (rd_err r)))
         /\ (rd_data r = [] ->
             exists pc,
               pump_step (sys_conn s) PumpLoop = Some (set_inner (sys_conn s) i', pc)))
  /\ (forall b pick r,
         b <> [] ->
         Read_wait (sys_conn s) b pick = Returned r ->
         rr_err r = None ->
         (exists d, rxData (sys_conn s) = ChanSending d)
         /\ rxData (rr_conn r) = ChanIdle
         /\ (1 <= rr_n r)%Z)
  /\ (forall b pick1 pick2 r,
         b <> [] ->
         Read (sys_conn s) (Some b) pick1 pick2 = Returned r ->
         rr_err r = None ->
         (1 <= rr_n r)%Z).
Proof.
  intros Hrun.
  destruct (sys_inv_run _ es _ s (sys_inv_init i) Hrun) as (_ & Hk & _ & _).
  assert (Hwait : forall b pick r,
             b <> [] ->
             Read_wait (sys_conn s) b pick = Returned r ->
             rr_err r = None ->
             (exists d, rxData (sys_conn s) = ChanSending d)
             /\ rxData (rr_conn r) = ChanIdle
             /\ (1 <= rr_n r)%Z).
  { intros b pick r Hb H He. apply Read_wait_cases in H.
    destruct H as [(_ & _ & _ & [E|E] & _)|(d & Ech & _ & Hn & _ & Hcn)];
      try congruence.
    split; [eauto|]. split; [now rewrite Hcn|].
    specialize (Hk d Ech). rewrite Hn.
    destruct b; [congruence|]. destruct d; [congruence|]. cbn [length]. lia. }
  split; [exact Hk|]. split; [|split; [exact Hwait|]].
  - intros r i' Hc Hi. rewrite (pump_step_read _ r i' Hc Hi). split.
    + intros Hd. destruct (rd_data r); [congruence|reflexivity].
    + intros ->. destruct (rd_err r); eauto.
  - intros b pick1 pick2 r Hb H He. unfold Read in H.
    destruct (Read_pending (sys_conn s) b pick1) as [r'|] eqn:E.
    + injection H as ->. apply Read_pending_cases in E.
      destruct E as [(_ & _ & _ & [E|E] & _)|(_ & _ & Hp & _ & Hn & _)];
        try congruence.
      rewrite Hn. destruct b; [congruence|].
      destruct (rxDataPending (sys_conn s)); [congruence|]. cbn [length]. lia.
    + now apply (Hwait b pick2 r).
Qed.

Lemma pump_publishes_nonempty_chunks_witness :
  exists s,
    run [EvPump] (system_init hello_stream) = Some s
    /\ rxData (sys_conn s) = ChanSending hello_world
    /\ forall r,
        Read (sys_conn s) (Some (make 5)) 0 0 = Returned r ->
        rr_err r = None -> (1 <= rr_n r)%Z.
Proof.
  eexists. split; [reflexivity|]. split; [reflexivity|].
  intros r.
  apply (proj2 (proj2 (proj2 (pump_publishes_nonempty_chunks
                                hello_stream [EvPump] _ eq_refl)))).
  discriminate.
Defined.

(** ** End of the stream *)

(** C3, as stated, fails in three ways.  A pump whose read returned
    bytes together with an error neither closes nor moves before a
    [Read] has taken these bytes.  After the pump has closed the
    connection, a [Read] with a nil buffer returns [(0, nil)], not
    end-of-stream; and with the read deadline passed a [Read] with a
    non-nil buffer may return deadline-exceeded. *)
Lemma Read_after_pump_close_not_always_EOF :
  (exists s,
      run [EvPump] (system_init failing_stream) = Some s
      /\ sys_pump s = PumpSending (Some (inner_error 7 false))
      /\ ctxDone (sys_conn s) = false
      /\ step EvPump s = None)
  /\ ctxDone (sys_conn hello_closed_system) = true
  /\ Read (sys_conn hello_closed_system) None 0 0
     = Returned (mkReadReturn 0 None None (sys_conn hello_closed_system))
  /\ ctxDone (sys_conn hello_expired_closed_system) = true
  /\ Read (sys_conn hello_expired_closed_system) (Some (make 5)) 1 0
     = Returned (mkReadReturn 0 (Some os_ErrDeadlineExceeded) (Some (make 5))
                   (sys_conn hello_expired_closed_system)).
Proof.
  split; [eexists; repeat split|repeat split].
Qed.

(** C3, amended.  When the wrapped connection's read reports an error,
    with or without bytes, the pump ends its loop: with no bytes at once,
    with bytes once a [Read] has taken them; it then runs [Close], which
    closes the wrapped connection and sets the cancellation signal,
    closes the handoff queue and is gone.  No [Read] ever returns an
    error other than end-of-stream and deadline-exceeded, so the wrapped
    connection's error is not surfaced.  After the closure, by the pump
    or by [Close], a [Read] that was blocked returns zero bytes with
    end-of-stream, and so does every later [Read] with a non-nil buffer
    while the read-deadline signal is not set. *)
Theorem pump_error_closes_and_Read_reports_EOF
    (c : conn) (b : list byte) (pick1 pick2 : nat) :
  (forall r i e,
      ctxDone c = false ->
      inner_Read (inner c) = Some (r, i) ->
      rd_err r = Some e ->
      (rd_data r = [] ->
       pump_step c PumpLoop = Some (set_inner c i, PumpDeferClose))
      /\ (rd_data r <> [] ->
          pump_step c PumpLoop
          = Some (set_rxData (set_inner c i) (ChanSending (rd_data r)),
                  PumpSending (Some e))))
  /\ (forall e,
         rxData c = ChanIdle ->
         pump_step c (PumpSending (Some e)) = Some (c, PumpDeferClose))
  /\ (pump_step c PumpDeferClose = Some (fst (Close c), PumpDeferCloseChan)
      /\ ctxDone (fst (Close c)) = true
      /\ closes (inner (fst (Close c))) = S (closes (inner c))
      /\ pump_step c PumpDeferCloseChan = Some (set_rxData c ChanClosed, PumpExited)
      /\ pump_step c PumpExited = None)
  /\ (forall b0 r,
         Read c b0 pick1 pick2 = Returned r ->
         rr_err r = None \/ rr_err r = Some io_EOF
         \/ rr_err r = Some os_ErrDeadlineExceeded)
  /\ (Read_wait c b pick1 = Blocked ->
      Read_wait (fst (Close c)) b pick2
      = Returned (mkReadReturn 0 (Some io_EOF) (Some b) (fst (Close c))))
  /\ (ctxDone c = true -> deadline.Done (rxDeadline c) = false ->
      Read c (Some b) pick1 pick2
      = Returned (mkReadReturn 0 (Some io_EOF) (Some b) c)).
Proof.
  split; [|split; [|split; [|split; [|split]]]].
  - intros r i e Hc Hi He. rewrite (pump_step_read c r i Hc Hi), He. split.
    + intros ->. reflexivity.
    + intros Hd. destruct (rd_data r); [congruence|reflexivity].
  - intros e Hch. cbn [pump_step]. now rewrite Hch.
  - repeat split.
  - intros b0 r. apply Read_error_kinds.
  - intros H. unfold Read_wait in *.
    destruct (select _ pick1) as [k|] eqn:E.
    { destruct k; try discriminate. destruct (rxData c); discriminate. }
    apply select_None in E.
    destruct (ctxDone c), (deadline.Done (rxDeadline c)) eqn:Hd,
      (chan_ready (rxData c)) eqn:Hch; cbn in E; try discriminate.
    cbn [Close inner_Close fst ctxDone rxDeadline rxData set_ctxDone set_inner].
    rewrite Hd, Hch.
    now rewrite (select_only _ pick2 RxClosed).
  - intros Hc Hd. now apply Read_closed_EOF.
Qed.

Lemma pump_error_closes_and_Read_reports_EOF_witness :
  pump_step (WithDeadlines failing_stream) PumpLoop
  = Some (set_rxData (set_inner (WithDeadlines failing_stream)
                        (mkNetConn [] None [] 0))
            (ChanSending hello_world),
          PumpSending (Some (inner_error 7 false)))
  /\ Read_wait (fst (Close (WithDeadlines failing_stream))) (make 5) 0
     = Returned (mkReadReturn 0 (Some io_EOF) (Some (make 5))
                   (fst (Close (WithDeadlines failing_stream))))
  /\ Read closed_conn (Some (make 5)) 0 0
     = Returned (mkReadReturn 0 (Some io_EOF) (Some (make 5)) closed_conn).
Proof.
  split; [|split].
  - apply (proj1 (pump_error_closes_and_Read_reports_EOF
                    (WithDeadlines failing_stream) (make 5) 0 0)
             (mkRead hello_world (Some (inner_error 7 false)))
             (mkNetConn [] None [] 0) (inner_error 7 false)
             eq_refl eq_refl eq_refl).
    discriminate.
  - apply (proj1 (proj2 (proj2 (proj2 (proj2
             (pump_error_closes_and_Read_reports_EOF
                (WithDeadlines failing_stream) (make 5) 0 0)))))).
    reflexivity.
  - apply (proj2 (proj2 (proj2 (proj2 (proj2
             (pump_error_closes_and_Read_reports_EOF closed_conn (make 5) 0 0))))));
      reflexivity.
Defined.

(** * Further properties of [conn.go] and [listener.go] *)

(** ** What [Read] does to the caller's buffer *)

Lemma copy_buffer (dst src : list byte) :
  length (snd (copy dst src)) = length dst
  /\ fst (copy dst src) <= length dst
  /\ fst (copy dst src) <= length src
  /\ skipn (fst (copy dst src)) (snd (copy dst src))
     = skipn (fst (copy dst src)) dst.
Proof.
  unfold copy. cbn [fst snd].
  set (n := Nat.min (length dst) (length src)).
  assert (Hn : length (firstn n src) = n)
    by (rewrite length_firstn; subst n; lia).
  repeat split; try (subst n; lia).
  - rewrite length_app, Hn, length_skipn. subst n. lia.
  - rewrite skipn_app, Hn, Nat.sub_diag.
    rewrite skipn_all2 by lia. reflexivity.
Qed.

Lemma Read_pending_buffer (c : conn) (b : list byte) (pick : nat) (r : read_return) :
  Read_pending c b pick = Some r ->
  (rr_err r <> None /\ rr_n r = 0%Z /\ rr_buf r = Some b /\ rr_conn r = c)
  \/ (rr_err r = None
      /\ rr_n r = Z.of_nat (fst (copy b (rxDataPending c)))
      /\ rr_buf r = Some (snd (copy b (rxDataPending c)))).
Proof.
  unfold Read_pending.
  assert (Hd : (if 0 <? length (rxDataPending c)
                then let (n, b') := copy b (rxDataPending c) in
                     Some (mkReadReturn (Z.of_nat n) None (Some b')
                             (set_rxDataPending c (skipn n (rxDataPending c))))
                else None) = Some r ->
               rr_err r = None
               /\ rr_n r = Z.of_nat (fst (copy b (rxDataPending c)))
               /\ rr_buf r = Some (snd (copy b (rxDataPending c)))).
  { destruct (0 <? length (rxDataPending c)); [|discriminate].
    destruct (copy b (rxDataPending c)) as [n b'].
    intros H. injection H as <-. auto. }
  destruct (select _ pick) as [[| |]|]; auto;
    intros H; injection H as <-; left; cbn; repeat split; discriminate.
Qed.

Lemma Read_wait_buffer (c : conn) (b : list byte) (pick : nat) (r : read_return) :
  Read_wait c b pick = Returned r ->
  (rr_err r <> None /\ rr_n r = 0%Z /\ rr_buf r = Some b /\ rr_conn r = c)
  \/ (exists data,
         rxData c = ChanSending data
         /\ rr_err r = None
         /\ rr_n r = Z.of_nat (fst (copy b data))
         /\ rr_buf r = Some (snd (copy b data))).
Proof.
  unfold Read_wait.
  destruct (select _ pick) as [[| |]|]; try discriminate;
    try (intros H; injection H as <-; left; cbn; repeat split; discriminate).
  destruct (rxData c) as [|data|];
    try (intros H; injection H as <-; left; cbn; repeat split; discriminate).
  destruct (copy b data) as [n b'] eqn:E. intros H. injection H as <-.
  right. exists data. rewrite E. auto.
Qed.

(** X1.  Whatever a [Read] into a non-nil buffer returns, the count is
    between zero and [len(b)], the buffer keeps its length, and the bytes
    from position [n] on are the caller's own; a call that returns an
    error returns zero bytes and has changed neither the buffer nor the
    connection; and no call changes the wrapped connection's record, the
    cancellation signal or a deadline. *)
Theorem Read_respects_buffer
    (c : conn) (b : list byte) (pick1 pick2 : nat) (r : read_return) :
  Read c (Some b) pick1 pick2 = Returned r ->
  (exists b',
      rr_buf r = Some b'
      /\ length b' = length b
      /\ (0 <= rr_n r <= Z.of_nat (length b))%Z
      /\ skipn (Z.to_nat (rr_n r)) b' = skipn (Z.to_nat (rr_n r)) b)
  /\ (rr_err r <> None ->
      rr_n r = 0%Z /\ rr_buf r = Some b /\ rr_conn r = c)
  /\ inner (rr_conn r) = inner c
  /\ ctxDone (rr_conn r) = ctxDone c
  /\ rxDeadline (rr_conn r) = rxDeadline c
  /\ txDeadline (rr_conn r) = txDeadline c.
Proof.
  intros H.
  assert (Hbuf :
    (rr_err r <> None /\ rr_n r = 0%Z /\ rr_buf r = Some b /\ rr_conn r = c)
    \/ (exists src, rr_err r = None
                    /\ rr_n r = Z.of_nat (fst (copy b src))
                    /\ rr_buf r = Some (snd (copy b src)))).
  { unfold Read in H. destruct (Read_pending c b pick1) as [r'|] eqn:E.
    - injection H as ->. apply Read_pending_buffer in E.
      destruct E as [E|E]; [now left|right; eauto].
    - apply Read_wait_buffer in H.
      destruct H as [H|(data & _ & H)]; [now left|right; eauto]. }
  assert (Hframe : inner (rr_conn r) = inner c
                   /\ ctxDone (rr_conn r) = ctxDone c
                   /\ rxDeadline (rr_conn r) = rxDeadline c
                   /\ txDeadline (rr_conn r) = txDeadline c).
  { unfold Read in H. destruct (Read_pending c b pick1) as [r'|] eqn:E.
    - injection H as ->. apply Read_pending_cases in E.
      destruct E as [(-> & _)|(_ & _ & _ & _ & _ & _ & ->)]; repeat split.
    - apply Read_wait_cases in H.
      destruct H as [(-> & _)|(data & _ & _ & _ & _ & ->)]; repeat split. }
  split; [|split; [|exact Hframe]].
  - destruct Hbuf as [(_ & Hn & Hb & _)|(src & _ & Hn & Hb)].
    + exists b. rewrite Hn. repeat split; auto; lia.
    + destruct (copy_buffer b src) as (Hl & Hle & _ & Hs).
      exists (snd (copy b src)). rewrite Hn, Nat2Z.id.
      repeat split; auto; lia.
  - intros He. destruct Hbuf as [(_ & Hn & Hb & Hc)|(src & He' & _)]; [auto|].
    congruence.
Qed.

Lemma Read_respects_buffer_witness :
  let c := set_rxDataPending (WithDeadlines hello_stream)
             (list_byte_of_string "hi") in
  let r := mkReadReturn 2 None (Some (list_byte_of_string "hi" ++ make 3))
             (set_rxDataPending c []) in
  Read c (Some (make 5)) 0 0 = Returned r
  /\ (exists b',
         rr_buf r = Some b'
         /\ length b' = length (make 5)
         /\ (0 <= rr_n r <= Z.of_nat (length (make 5)))%Z
         /\ skipn (Z.to_nat (rr_n r)) b' = skipn (Z.to_nat (rr_n r)) (make 5)).
Proof.
  intros c r. split; [reflexivity|].
  exact (proj1 (Read_respects_buffer c (make 5) 0 0 r eq_refl)).
Defined.

(** ** When [Read] and [Write] wait *)

(** X2.  A [Read] into a non-nil buffer waits exactly when the
    connection is not closed, the read deadline has not passed, no bytes
    are pending and the pump offers no chunk; in every other state it
    returns at once. *)
Theorem Read_blocks_iff (c : conn) (b : list byte) (pick1 pick2 : nat) :
  Read c (Some b) pick1 pick2 = Blocked
  <-> (ctxDone c = false
       /\ deadline.Done (rxDeadline c) = false
       /\ rxDataPending c = []
       /\ rxData c = ChanIdle).
Proof.
  split.
  - intros H. destruct (Read_live_blocked c b pick1 pick2 H) as (Hp & Hch).
    unfold Read in H. destruct (Read_pending c b pick1) eqn:E; [discriminate|].
    apply Read_pending_None in E. tauto.
  - intros (Hc & Hd & Hp & Hch). unfold Read.
    rewrite Read_pending_unsignalled, Hp by assumption. cbn [length Nat.ltb Nat.leb].
    unfold Read_wait. rewrite Hc, Hd, Hch.
    now rewrite select_default by (repeat constructor).
Qed.

Lemma Read_blocks_iff_witness :
  Read (WithDeadlines hello_stream) (Some (make 5)) 0 0 = Blocked.
Proof.
  apply (proj2 (Read_blocks_iff (WithDeadlines hello_stream) (make 5) 0 0)).
  repeat split.
Defined.

(** X3.  A [Write] of a non-nil buffer waits exactly when the connection
    is not closed, the write deadline has not passed and the wrapped
    write has not completed; in particular it never waits on a closed
    connection or past its deadline, however long the wrapped write
    takes.  When it returns an error of its own, it reports zero bytes. *)
Theorem Write_blocks_iff
    (c : conn) (b : list byte) (res : option txResult) (pick : nat) :
  (fst (Write c (Some b) res pick) = Blocked
   <-> (ctxDone c = false
        /\ deadline.Done (txDeadline c) = false
        /\ res = None))
  /\ (res = None ->
      forall n err,
        fst (Write c (Some b) res pick) = Returned (n, err) ->
        n = 0%Z /\ (err = Some io_EOF \/ err = Some os_ErrDeadlineExceeded)).
Proof.
  rewrite Write_nonnil. cbn [fst]. unfold Write_wait.
  cbn [ctxDone txDeadline set_inner]. split; [split|].
  - destruct (select _ pick) as [k|] eqn:E.
    + apply select_In in E.
      destruct k; try discriminate.
      destruct res; [discriminate|]. intros _.
      destruct (ctxDone c), (deadline.Done (txDeadline c)); cbn in E;
        intuition discriminate.
    + intros _. apply select_None in E.
      destruct (ctxDone c), (deadline.Done (txDeadline c)), res;
        cbn in E; try discriminate. auto.
  - intros (-> & -> & ->).
    now rewrite select_default by (repeat constructor).
  - intros -> n err. destruct (select _ pick) as [k|] eqn:E; [|discriminate].
    destruct k; intros H; try discriminate; injection H as <- <-; auto.
Qed.

Lemma Write_blocks_iff_witness :
  fst (Write (WithDeadlines hello_stream) (Some hello_world) None 0) = Blocked
  /\ fst (Write closed_conn (Some hello_world) None 0)
     = Returned (0%Z, Some io_EOF).
Proof.
  split.
  - apply (proj2 (proj1 (Write_blocks_iff (WithDeadlines hello_stream)
                           hello_world None 0))).
    repeat split.
  - destruct (proj2 (Write_blocks_iff closed_conn hello_world None 0)
                eq_refl 0%Z (Some io_EOF) eq_refl) as [_ _].
    reflexivity.
Defined.

(** ** What a run does to the wrapped connection *)

Lemma pump_step_inner (c c' : conn) (pc pc' : pump_pc) :
  pump_step c pc = Some (c', pc') ->
  writes (inner c') = writes (inner c)
  /\ closes (inner c') + pump_has_closed pc
     = closes (inner c) + pump_has_closed pc'
  /\ (ctxDone c = true -> reads (inner c') = reads (inner c)).
Proof.
  destruct pc; cbn [pump_step].
  - destruct (ctxDone c) eqn:Hc.
    + rewrite (select_only [(true, tt)] 0 tt) by reflexivity.
      intros H. injection H as <- <-. auto.
    + rewrite select_default by (repeat constructor).
      unfold inner_Read. destruct (reads (inner c)) as [|r rest]; [discriminate|].
      destruct (0 <? length (rd_data r)); [|destruct (rd_err r)];
        intros H; injection H as <- <-; cbn; repeat split; auto; discriminate.
  - destruct (rxData c); try discriminate.
    destruct err; intros H; injection H as <- <-; auto.
  - intros H. injection H as <- <-. cbn. repeat split. lia.
  - intros H. injection H as <- <-. cbn. auto.
  - discriminate.
Qed.

Lemma setters_keep_inner (now t : time) (c : conn) :
  inner (fst (SetReadDeadline now t c)) = inner c
  /\ inner (fst (SetWriteDeadline now t c)) = inner c
  /\ inner (fst (SetDeadline now t c)) = inner c.
Proof.
  assert (Hr : forall c0, inner (fst (SetReadDeadline now t c0)) = inner c0)
    by (intros c0; unfold SetReadDeadline; now destruct (select _ 0)).
  assert (Hw : forall c0, inner (fst (SetWriteDeadline now t c0)) = inner c0)
    by (intros c0; unfold SetWriteDeadline; now destruct (select _ 0)).
  repeat split; auto.
  unfold SetDeadline. specialize (Hr c).
  destruct (SetReadDeadline now t c) as [c1 [e|]]; cbn [fst] in *; [exact Hr|].
  now rewrite Hw.
Qed.

Lemma Read_pending_frame (c : conn) (b : list byte) (pick : nat) (r : read_return) :
  Read_pending c b pick = Some r ->
  inner (rr_conn r) = inner c /\ ctxDone (rr_conn r) = ctxDone c.
Proof.
  intros H. apply Read_pending_cases in H.
  destruct H as [(-> & _)|(_ & _ & _ & _ & _ & _ & ->)]; split; reflexivity.
Qed.

Lemma Read_wait_frame (c : conn) (b : list byte) (pick : nat) (r : read_return) :
  Read_wait c b pick = Returned r ->
  inner (rr_conn r) = inner c /\ ctxDone (rr_conn r) = ctxDone c.
Proof.
  intros H. apply Read_wait_cases in H.
  destruct H as [(-> & _)|(data & _ & _ & _ & _ & ->)]; split; reflexivity.
Qed.

(** The effect of one event on the wrapped connection and on the
    cancellation signal. *)
Lemma step_inner (e : event) (s s' : system) :
  step e s = Some s' ->
  writes (inner (sys_conn s')) = writes (inner (sys_conn s)) ++ written [e]
  /\ closes (inner (sys_conn s')) + pump_has_closed (sys_pump s)
     = closes (inner (sys_conn s)) + close_calls [e]
       + pump_has_closed (sys_pump s')
  /\ (ctxDone (sys_conn s) = true ->
      ctxDone (sys_conn s') = true
      /\ reads (inner (sys_conn s')) = reads (inner (sys_conn s))).
Proof.
  intros H. destruct e; cbn [step] in H; cbn [written flat_map close_calls filter length].
  - destruct (pump_step (sys_conn s) (sys_pump s)) as [[c' pc']|] eqn:E;
      [|discriminate].
    injection H as <-. cbn [sys_conn sys_pump].
    destruct (pump_step_inner _ _ _ _ E) as (Hw & Hcl & Hrd).
    destruct (pump_step_keeps _ _ _ _ E) as (_ & Hc).
    rewrite app_nil_r. repeat split; auto; lia.
  - destruct (sys_reader s); [discriminate|]. destruct b as [buf|].
    + destruct (Read_pending (sys_conn s) buf pick) as [r|] eqn:E;
        injection H as <-; cbn [sys_conn sys_pump read_returns].
      * destruct (Read_pending_frame _ _ _ _ E) as (-> & ->).
        rewrite app_nil_r. repeat split; auto; lia.
      * rewrite app_nil_r. repeat split; auto; lia.
    + injection H as <-. cbn [sys_conn sys_pump read_returns rr_conn].
      rewrite app_nil_r. repeat split; auto; lia.
  - destruct (sys_reader s) as [buf|]; [|discriminate].
    destruct (Read_wait (sys_conn s) buf pick) as [r|] eqn:E; [|discriminate].
    injection H as <-. cbn [sys_conn sys_pump read_returns].
    destruct (Read_wait_frame _ _ _ _ E) as (-> & ->).
    rewrite app_nil_r. repeat split; auto; lia.
  - injection H as <-. cbn [sys_conn sys_pump with_conn].
    destruct b as [buf|].
    + rewrite Write_nonnil. cbn. repeat split; auto; lia.
    + cbn. rewrite app_nil_r. repeat split; auto; lia.
  - injection H as <-. cbn. rewrite app_nil_r. repeat split; auto; lia.
  - injection H as <-. cbn [sys_conn sys_pump with_conn].
    destruct (setters_keep_inner now t (sys_conn s)) as (_ & _ & ->).
    destruct (setters_keep_ctxDone now t (sys_conn s)) as (_ & _ & ->).
    rewrite app_nil_r. repeat split; auto; lia.
  - injection H as <-. cbn [sys_conn sys_pump with_conn].
    destruct (setters_keep_inner now t (sys_conn s)) as (-> & _ & _).
    destruct (setters_keep_ctxDone now t (sys_conn s)) as (-> & _ & _).
    rewrite app_nil_r. repeat split; auto; lia.
  - injection H as <-. cbn [sys_conn sys_pump with_conn].
    destruct (setters_keep_inner now t (sys_conn s)) as (_ & -> & _).
    destruct (setters_keep_ctxDone now t (sys_conn s)) as (_ & -> & _).
    rewrite app_nil_r. repeat split; auto; lia.
  - injection H as <-. cbn. rewrite app_nil_r. repeat split; auto; lia.
Qed.

Lemma run_inner (es : list event) :
  forall s s',
    run es s = Some s' ->
    writes (inner (sys_conn s')) = writes (inner (sys_conn s)) ++ written es
    /\ closes (inner (sys_conn s')) + pump_has_closed (sys_pump s)
       = closes (inner (sys_conn s)) + close_calls es
         + pump_has_closed (sys_pump s')
    /\ (ctxDone (sys_conn s) = true ->
        ctxDone (sys_conn s') = true
        /\ reads (inner (sys_conn s')) = reads (inner (sys_conn s))).
Proof.
  induction es as [|e es IH]; intros s s' H; cbn [run] in H.
  - injection H as <-. cbn. rewrite app_nil_r. repeat split; auto; lia.
  - destruct (step e s) as [s1|] eqn:E; [|discriminate].
    destruct (step_inner e s s1 E) as (Hw1 & Hc1 & Hd1).
    destruct (IH s1 s' H) as (Hw2 & Hc2 & Hd2).
    assert (Hwr : written (e :: es) = written [e] ++ written es)
      by (cbn [written flat_map]; now rewrite app_nil_r).
    assert (Hcc : close_calls (e :: es) = close_calls [e] + close_calls es)
      by (unfold close_calls; cbn [filter]; destruct e; reflexivity).
    rewrite Hwr, Hcc. split; [|split].
    + rewrite Hw2, Hw1. symmetry. apply app_assoc.
    + lia.
    + intros Hd. destruct (Hd1 Hd) as (Hx & Hy).
      destruct (Hd2 Hx) as (Hz & Hr). split; congruence.
Qed.

(** X4.  A [Write] of a non-nil buffer that fails fast still writes.  On
    a connection that is closed, or whose write deadline has passed,
    while the wrapped write has not completed, [Write] returns zero
    bytes with end-of-stream or deadline-exceeded; yet the goroutine that
    passes a copy of exactly the caller's bytes to the wrapped
    connection's [Write] has been started, once, and nothing else of the
    connection has changed. *)
Theorem Write_fails_fast_but_writes
    (c : conn) (b : list byte) (pick : nat) :
  ctxDone c = true \/ deadline.Done (txDeadline c) = true ->
  (fst (Write c (Some b) None pick) = Returned (0%Z, Some io_EOF)
   \/ fst (Write c (Some b) None pick) = Returned (0%Z, Some os_ErrDeadlineExceeded))
  /\ writes (inner (snd (Write c (Some b) None pick))) = writes (inner c) ++ [b]
  /\ reads (inner (snd (Write c (Some b) None pick))) = reads (inner c)
  /\ closes (inner (snd (Write c (Some b) None pick))) = closes (inner c)
  /\ set_inner (snd (Write c (Some b) None pick)) (inner c) = c.
Proof.
  intros Hs. rewrite Write_nonnil. cbn [fst snd]. split.
  - unfold Write_wait. cbn [ctxDone txDeadline set_inner].
    destruct (select _ pick) as [k|] eqn:E.
    + apply select_In in E.
      destruct k; [left; reflexivity|right; reflexivity|].
      exfalso. destruct (ctxDone c), (deadline.Done (txDeadline c));
        cbn in E; intuition discriminate.
    + apply select_None in E.
      destruct Hs as [Hs|Hs]; rewrite Hs in E;
        [|destruct (ctxDone c)]; discriminate.
  - destruct c. repeat split.
Qed.

Lemma Write_fails_fast_but_writes_witness :
  fst (Write closed_conn (Some hello_world) None 0) = Returned (0%Z, Some io_EOF)
  /\ writes (inner (snd (Write closed_conn (Some hello_world) None 0)))
     = [hello_world].
Proof.
  destruct (Write_fails_fast_but_writes closed_conn hello_world 0
              (or_introl eq_refl)) as (_ & Hw & _).
  split; [reflexivity|exact Hw].
Defined.

(** X5.  In any run that starts from a fresh connection, the wrapped
    connection's [Close] is called once for every call of the public
    [Close] and once more by the pump when it has run its deferred
    [c.Close()]: a connection closed by its user is closed a second time
    by the pump, and [Close] may be called any number of times. *)
Theorem inner_Close_count (i : netConn) (es : list event) (s : system) :
  run es (system_init i) = Some s ->
  closes (inner (sys_conn s))
  = closes i + close_calls es + pump_has_closed (sys_pump s).
Proof.
  intros H. destruct (run_inner es _ s H) as (_ & Hc & _).
  cbn in Hc. lia.
Qed.

Lemma inner_Close_count_witness :
  let es := [EvClose; EvPump; EvPump; EvPump; EvClose] in
  let s := match run es (system_init hello_stream) with
           | Some x => x
           | None => system_init hello_stream
           end in
  run es (system_init hello_stream) = Some s
  /\ sys_pump s = PumpExited
  /\ closes (inner (sys_conn s)) = 3.
Proof.
  intros es s. split; [reflexivity|]. split; [reflexivity|].
  exact (inner_Close_count hello_stream es s eq_refl).
Defined.

Lemma setters_closed (now t : time) (c : conn) :
  ctxDone c = true ->
  SetReadDeadline now t c = (c, Some net_ErrClosed)
  /\ SetWriteDeadline now t c = (c, Some net_ErrClosed)
  /\ SetDeadline now t c = (c, Some net_ErrClosed).
Proof.
  intros Hc. unfold SetDeadline, SetReadDeadline, SetWriteDeadline. rewrite Hc.
  rewrite (select_only [(true, tt)] 0 tt) by reflexivity. repeat split.
Qed.

(** X6.  Closing is permanent.  Once the cancellation signal is set, by
    [Close] or by the pump, it stays set whatever happens afterwards,
    including a [Read] that was waiting; from then on every setter fails
    with the closed-connection error and changes nothing, and every
    [Read] with a non-nil buffer returns zero bytes with an error. *)
Theorem closed_is_permanent (es : list event) (s s' : system) :
  ctxDone (sys_conn s) = true ->
  run es s = Some s' ->
  ctxDone (sys_conn s') = true
  /\ (forall now t,
         SetReadDeadline now t (sys_conn s') = (sys_conn s', Some net_ErrClosed)
         /\ SetWriteDeadline now t (sys_conn s') = (sys_conn s', Some net_ErrClosed)
         /\ SetDeadline now t (sys_conn s') = (sys_conn s', Some net_ErrClosed))
  /\ (forall b pick1 pick2,
         exists e,
           Read (sys_conn s') (Some b) pick1 pick2
           = Returned (mkReadReturn 0 (Some e) (Some b) (sys_conn s'))).
Proof.
  intros Hc H. destruct (run_inner es s s' H) as (_ & _ & Hd).
  destruct (Hd Hc) as (Hc' & _). repeat split; auto;
    try (now apply setters_closed).
  intros b pick1 pick2.
  destruct (Read_closed (sys_conn s') b pick1 pick2 Hc') as (e & E & _). eauto.
Qed.

Lemma closed_is_permanent_witness :
  let es := [EvPump; EvTimer 7; EvSetDeadline 3 9; EvRead (Some (make 4)) 0] in
  let s := with_conn (system_init hello_stream)
             (fst (Close (WithDeadlines hello_stream))) in
  let s' := match run es s with Some x => x | None => s end in
  run es s = Some s'
  /\ ctxDone (sys_conn s') = true
  /\ SetDeadline 3 9 (sys_conn s') = (sys_conn s', Some net_ErrClosed).
Proof.
  intros es s s'. split; [reflexivity|].
  destruct (closed_is_permanent es s s' eq_refl eq_refl) as (H1 & H2 & _).
  exact (conj H1 (proj2 (proj2 (H2 3%Z 9%Z)))).
Defined.

(** ** The two directions and their deadlines *)

(** What [Read] answers depends on the connection only through the
    cancellation signal, the read-deadline signal, the pending bytes and
    the handoff queue. *)
Lemma Read_answer_depends (c1 c2 : conn) (b : slice) (pick1 pick2 : nat) :
  ctxDone c1 = ctxDone c2 ->
  deadline.Done (rxDeadline c1) = deadline.Done (rxDeadline c2) ->
  rxDataPending c1 = rxDataPending c2 ->
  rxData c1 = rxData c2 ->
  read_answer (Read c1 b pick1 pick2) = read_answer (Read c2 b pick1 pick2).
Proof.
  intros Hc Hd Hp Hch. destruct b as [buf|]; [|reflexivity].
  unfold Read, Read_pending, Read_wait. rewrite Hc, Hd, Hp, Hch.
  destruct (select _ pick1) as [[| |]|]; try reflexivity;
    (destruct (0 <? length (rxDataPending c2));
     [destruct (copy buf (rxDataPending c2)); reflexivity|]);
    (destruct (select _ pick2) as [[| |]|]; try reflexivity;
     destruct (rxData c2); try reflexivity;
     destruct (copy buf data) as [n b']; destruct (n <? length data);
     reflexivity).
Qed.

(** X7.  The two directions are independent: setting the write deadline,
    to any time, changes nothing in what a [Read] answers, and setting
    the read deadline changes nothing in what a [Write] answers; and
    [SetDeadline(t)] gives the same connection and the same error as
    the two setters called in the opposite order. *)
Theorem deadlines_are_independent
    (now t : time) (c : conn) (b : slice) (res : option txResult)
    (pick1 pick2 : nat) :
  read_answer (Read (fst (SetWriteDeadline now t c)) b pick1 pick2)
  = read_answer (Read c b pick1 pick2)
  /\ fst (Write (fst (SetReadDeadline now t c)) b res pick1)
     = fst (Write c b res pick1)
  /\ SetReadDeadline now t (fst (SetWriteDeadline now t c))
     = SetDeadline now t c.
Proof.
  split; [|split].
  - apply Read_answer_depends;
      unfold SetWriteDeadline; destruct (select _ 0); reflexivity.
  - unfold SetReadDeadline. destruct (select _ 0); [reflexivity|].
    destruct b; reflexivity.
  - destruct c as [i [|] ch p rd td]; reflexivity.
Qed.

(** X8.  On a connection that is not closed, setting the read deadline
    to a non-zero time that is not in the future aborts reading: a
    [Read] that was waiting returns zero bytes with deadline-exceeded,
    and so does every later [Read] with a non-nil buffer, whatever is
    pending or on the queue, none of which is consumed.  (The deadline
    primitive is the one described for package [deadline].) *)
Theorem past_read_deadline_aborts_Read
    (now t : time) (c : conn) (b : list byte) (pick1 pick2 : nat) :
  ctxDone c = false ->
  t <> 0%Z -> (t <= now)%Z ->
  let c' := fst (SetReadDeadline now t c) in
  snd (SetReadDeadline now t c) = None
  /\ (Read_wait c b pick1 = Blocked ->
      Read_wait c' b pick2
      = Returned (mkReadReturn 0 (Some os_ErrDeadlineExceeded) (Some b) c'))
  /\ Read c' (Some b) pick1 pick2
     = Returned (mkReadReturn 0 (Some os_ErrDeadlineExceeded) (Some b) c').
Proof.
  intros Hc Ht Hle c'. subst c'. unfold SetReadDeadline. rewrite Hc.
  rewrite select_default by (repeat constructor). cbn [fst snd].
  assert (Hset : deadline.Set_ now t (rxDeadline c)
                 = deadline.mkDeadline (Some t) true).
  { unfold deadline.Set_, IsZero.
    destruct (Z.eqb_spec t 0); [contradiction|].
    destruct (Z.leb_spec t now); [reflexivity|lia]. }
  rewrite Hset. split; [reflexivity|]. split.
  - intros Hblk. unfold Read_wait in *.
    destruct (select _ pick1) as [k|] eqn:E.
    { destruct k; try discriminate. destruct (rxData c); discriminate. }
    apply select_None in E. rewrite Hc in E.
    destruct (deadline.Done (rxDeadline c)), (chan_ready (rxData c)) eqn:Hch;
      cbn in E; try discriminate.
    cbn [ctxDone rxDeadline rxData set_rxDeadline deadline.Done deadline.fired].
    rewrite Hc, Hch. now rewrite (select_only _ pick2 RxDeadline).
  - unfold Read, Read_pending.
    cbn [ctxDone rxDeadline set_rxDeadline deadline.Done deadline.fired].
    rewrite Hc. now rewrite (select_only _ pick1 RxDeadline).
Qed.

Lemma past_read_deadline_aborts_Read_witness :
  let c := set_rxDataPending (WithDeadlines hello_stream) hello_world in
  let c' := fst (SetReadDeadline 10 5 c) in
  Read c' (Some (make 5)) 0 0
  = Returned (mkReadReturn 0 (Some os_ErrDeadlineExceeded) (Some (make 5)) c').
Proof.
  intros c c'.
  assert (H5 : 5%Z <> 0%Z) by discriminate.
  assert (Hle : (5 <= 10)%Z) by (intros H; discriminate H).
  exact (proj2 (proj2 (past_read_deadline_aborts_Read
                         10 5 c (make 5) 0 0 eq_refl H5 Hle))).
Defined.

(** X9.  On a connection that is not closed, setting the read deadline
    to the zero time or to a time in the future clears a deadline that
    had passed: from then on [Read] answers exactly as on a connection
    that never had a read deadline, so that pending bytes are delivered
    again.  (The deadline primitive is the one described for package
    [deadline].) *)
Theorem read_deadline_revival
    (now t : time) (c : conn) (b : slice) (pick1 pick2 : nat) :
  ctxDone c = false ->
  t = 0%Z \/ (now < t)%Z ->
  snd (SetReadDeadline now t c) = None
  /\ read_answer (Read (fst (SetReadDeadline now t c)) b pick1 pick2)
     = read_answer (Read (set_rxDeadline c deadline.New) b pick1 pick2).
Proof.
  intros Hc Ht. unfold SetReadDeadline. rewrite Hc.
  rewrite select_default by (repeat constructor). cbn [fst snd].
  split; [reflexivity|]. apply Read_answer_depends; try reflexivity.
  cbn [rxDeadline set_rxDeadline]. unfold deadline.Set_, IsZero.
  destruct (Z.eqb_spec t 0); [reflexivity|].
  destruct (Z.leb_spec t now); [lia|reflexivity].
Qed.

Lemma read_deadline_revival_witness :
  let c := fst (SetReadDeadline 10 5
                  (set_rxDataPending (WithDeadlines hello_stream) hello_world)) in
  read_answer (Read c (Some (make 5)) 0 0)
  = Returned (0%Z, Some os_ErrDeadlineExceeded, Some (make 5))
  /\ read_answer (Read (fst (SetReadDeadline 10 0 c)) (Some (make 5)) 0 0)
     = Returned (5%Z, None, Some (list_byte_of_string "hello")).
Proof.
  intros c. split; [reflexivity|].
  exact (proj2 (read_deadline_revival 10 0 c (Some (make 5)) 0 0
                  eq_refl (or_introl eq_refl))).
Defined.

(** ** The pump after a close *)

Lemma stuck_pump_step (e : event) (s s' : system) (err : option error) (d : list byte) :
  ctxDone (sys_conn s) = true -> sys_reader s = None ->
  sys_pump s = PumpSending err -> rxData (sys_conn s) = ChanSending d ->
  step e s = Some s' ->
  sys_pump s' = PumpSending err /\ rxData (sys_conn s') = ChanSending d.
Proof.
  intros Hc Hrd Hpc Hch H. destruct e; cbn [step] in H.
  - rewrite Hpc in H. cbn [pump_step] in H. rewrite Hch in H. discriminate.
  - rewrite Hrd in H. destruct b as [buf|].
    + destruct (Read_pending_signalled (sys_conn s) buf pick (or_introl Hc))
        as (e & E & _).
      rewrite E in H. injection H as <-. cbn. auto.
    + injection H as <-. cbn. auto.
  - rewrite Hrd in H. discriminate.
  - injection H as <-. cbn [with_conn sys_pump sys_conn].
    destruct (Write_same_rx (sys_conn s) b res pick) as (-> & _). auto.
  - injection H as <-. cbn. auto.
  - injection H as <-. cbn [with_conn sys_pump sys_conn].
    destruct (SetDeadline_same_rx now t (sys_conn s)) as (-> & _). auto.
  - injection H as <-. cbn [with_conn sys_pump sys_conn].
    destruct (SetReadDeadline_same_rx now t (sys_conn s)) as (-> & _). auto.
  - injection H as <-. cbn [with_conn sys_pump sys_conn].
    destruct (SetWriteDeadline_same_rx now t (sys_conn s)) as (-> & _). auto.
  - injection H as <-. cbn. auto.
Qed.

(** X10.  If the connection is closed while the pump is blocked handing
    over a chunk and no [Read] is waiting, the pump never finishes:
    whatever happens afterwards it stays blocked in its send, its chunk
    is never returned to a caller, its deferred [c.Close()] never runs
    and the handoff queue is never closed. *)
Theorem pump_blocked_in_send_after_close
    (es : list event) (s s' : system) (err : option error) (d : list byte) :
  ctxDone (sys_conn s) = true -> sys_reader s = None ->
  sys_pump s = PumpSending err -> rxData (sys_conn s) = ChanSending d ->
  run es s = Some s' ->
  sys_pump s' = PumpSending err
  /\ rxData (sys_conn s') = ChanSending d
  /\ sys_delivered s' = sys_delivered s.
Proof.
  revert s. induction es as [|e es IH]; intros s Hc Hrd Hpc Hch H; cbn [run] in H.
  - injection H as <-. auto.
  - destruct (step e s) as [s1|] eqn:E; [|discriminate].
    destruct (closed_idle_step e s s1 Hc Hrd E) as (Hc1 & Hrd1 & Hd1 & _).
    destruct (stuck_pump_step e s s1 err d Hc Hrd Hpc Hch E) as (Hpc1 & Hch1).
    destruct (IH s1 Hc1 Hrd1 Hpc1 Hch1 H) as (? & ? & ?).
    repeat split; congruence.
Qed.

Lemma pump_blocked_in_send_after_close_witness :
  let s := match run [EvPump; EvClose] (system_init hello_stream) with
           | Some x => x
           | None => system_init hello_stream
           end in
  let es := [EvRead (Some (make 5)) 0; EvTimer 3; EvClose;
             EvRead (Some (make 20)) 1] in
  let s' := match run es s with Some x => x | None => s end in
  run [EvPump; EvClose] (system_init hello_stream) = Some s
  /\ run es s = Some s'
  /\ sys_pump s' = PumpSending None
  /\ rxData (sys_conn s') = ChanSending hello_world
  /\ sys_delivered s' = [].
Proof.
  intros s es s'. split; [reflexivity|]. split; [reflexivity|].
  exact (pump_blocked_in_send_after_close es s s' None hello_world
           eq_refl eq_refl eq_refl eq_refl eq_refl).
Defined.

(** ** End-of-stream and the cancellation signal *)

Lemma pump_step_closed_after (c c' : conn) (pc pc' : pump_pc) :
  (pump_has_closed pc = 1 -> ctxDone c = true) ->
  pump_step c pc = Some (c', pc') ->
  pump_has_closed pc' = 1 -> ctxDone c' = true.
Proof.
  intros Hinv H. destruct (pump_step_keeps _ _ _ _ H) as (_ & Hk).
  destruct pc; cbn [pump_step] in H.
  - destruct (select _ 0); [injection H as <- <-; discriminate|].
    destruct (inner_Read (inner c)) as [[r i]|]; [|discriminate].
    destruct (0 <? length (rd_data r)); [|destruct (rd_err r)];
      injection H as <- <-; discriminate.
  - destruct (rxData c); try discriminate.
    destruct err; injection H as <- <-; discriminate.
  - injection H as <- <-. reflexivity.
  - intros _. apply Hk, Hinv. reflexivity.
  - discriminate.
Qed.

Lemma step_closed_after (e : event) (s s' : system) :
  (pump_has_closed (sys_pump s) = 1 -> ctxDone (sys_conn s) = true) ->
  step e s = Some s' ->
  pump_has_closed (sys_pump s') = 1 -> ctxDone (sys_conn s') = true.
Proof.
  intros Hinv H. destruct (step_inner e s s' H) as (_ & _ & Hmono).
  assert (Hsame : sys_pump s' = sys_pump s ->
                  pump_has_closed (sys_pump s') = 1 -> ctxDone (sys_conn s') = true).
  { intros -> Hp. now apply Hmono, Hinv. }
  destruct e; cbn [step] in H;
    try (injection H as <-; now apply Hsame).
  - destruct (pump_step (sys_conn s) (sys_pump s)) as [[c' pc']|] eqn:E;
      [|discriminate].
    injection H as <-. cbn [sys_pump sys_conn].
    eapply pump_step_closed_after; eassumption.
  - destruct (sys_reader s); [discriminate|]. destruct b as [buf|].
    + destruct (Read_pending (sys_conn s) buf pick);
        injection H as <-; now apply Hsame.
    + injection H as <-. now apply Hsame.
  - destruct (sys_reader s) as [buf|]; [|discriminate].
    destruct (Read_wait (sys_conn s) buf pick); [|discriminate].
    injection H as <-. now apply Hsame.
Qed.

Lemma run_closed_after (es : list event) :
  forall s s',
    (pump_has_closed (sys_pump s) = 1 -> ctxDone (sys_conn s) = true) ->
    run es s = Some s' ->
    pump_has_closed (sys_pump s') = 1 -> ctxDone (sys_conn s') = true.
Proof.
  induction es as [|e es IH]; intros s s' Hinv H; cbn [run] in H.
  - now injection H as <-.
  - destruct (step e s) as [s1|] eqn:E; [|discriminate].
    eapply IH; [|exact H]. eapply step_closed_after; eassumption.
Qed.

Lemma Read_pending_EOF (c : conn) (b : list byte) (pick : nat) (r : read_return) :
  Read_pending c b pick = Some r -> rr_err r = Some io_EOF -> ctxDone c = true.
Proof.
  intros H He.
  destruct (ctxDone c) eqn:Hc; [reflexivity|].
  destruct (deadline.Done (rxDeadline c)) eqn:Hd.
  - destruct (Read_pending_signalled c b pick (or_intror Hd))
      as (e & E & [(-> & F)|(-> & _)]); [congruence|].
    rewrite E in H. injection H as <-. discriminate.
  - rewrite Read_pending_unsignalled in H by assumption.
    destruct (0 <? length (rxDataPending c)); [|discriminate].
    injection H as <-. discriminate.
Qed.

(** X11.  In every state a connection can reach, the handoff queue is
    closed only once the pump has gone, which is after the cancellation
    signal was set; whenever the pump is about to send on the queue or
    to close it, the queue is open with no chunk on it; and a [Read]
    returns end-of-stream only on a connection whose cancellation signal
    is set, never because the stream is merely idle. *)
Theorem EOF_only_after_cancellation
    (i : netConn) (es : list event) (s : system) :
  run es (system_init i) = Some s ->
  (rxData (sys_conn s) = ChanClosed <-> sys_pump s = PumpExited)
  /\ (rxData (sys_conn s) = ChanClosed -> ctxDone (sys_conn s) = true)
  /\ (sys_pump s = PumpLoop \/ sys_pump s = PumpDeferCloseChan ->
      rxData (sys_conn s) = ChanIdle)
  /\ (forall b pick1 pick2 r,
         Read (sys_conn s) b pick1 pick2 = Returned r ->
         rr_err r = Some io_EOF ->
         ctxDone (sys_conn s) = true)
  /\ (forall b pick r,
         Read_wait (sys_conn s) b pick = Returned r ->
         rr_err r = Some io_EOF ->
         ctxDone (sys_conn s) = true).
Proof.
  intros Hrun.
  destruct (sys_inv_run _ es _ s (sys_inv_init i) Hrun) as (_ & _ & _ & Hco).
  assert (Hcl : pump_has_closed (sys_pump s) = 1 -> ctxDone (sys_conn s) = true).
  { apply (run_closed_after es (system_init i) s); [discriminate|exact Hrun]. }
  assert (Hiff : rxData (sys_conn s) = ChanClosed <-> sys_pump s = PumpExited).
  { destruct (sys_pump s); cbn [pump_coherent] in Hco;
      split; intros H; congruence. }
  assert (Hq : rxData (sys_conn s) = ChanClosed -> ctxDone (sys_conn s) = true).
  { intros H. apply Hcl. apply Hiff in H. now rewrite H. }
  assert (Hwait : forall b pick r,
             Read_wait (sys_conn s) b pick = Returned r ->
             rr_err r = Some io_EOF -> ctxDone (sys_conn s) = true).
  { intros b pick r H He. unfold Read_wait in H.
    destruct (select _ pick) as [k|] eqn:E; [|discriminate].
    apply select_In in E. destruct k.
    - destruct (ctxDone (sys_conn s)); [reflexivity|].
      destruct (deadline.Done (rxDeadline (sys_conn s))),
        (chan_ready (rxData (sys_conn s))); cbn in E; intuition discriminate.
    - injection H as <-. discriminate.
    - destruct (rxData (sys_conn s)) as [|data|] eqn:Hch.
      + injection H as <-. exfalso.
        destruct (ctxDone (sys_conn s)), (deadline.Done (rxDeadline (sys_conn s)));
          cbn in E; intuition discriminate.
      + destruct (copy b data). injection H as <-. discriminate.
      + now apply Hq. }
  split; [exact Hiff|]. split; [exact Hq|]. split; [|split; [|exact Hwait]].
  - intros [H|H]; rewrite H in Hco; exact Hco.
  - intros b pick1 pick2 r H He. unfold Read in H. destruct b as [buf|].
    + destruct (Read_pending (sys_conn s) buf pick1) as [r'|] eqn:E.
      * injection H as ->. eapply Read_pending_EOF; eassumption.
      * eapply Hwait; eassumption.
    + injection H as <-. discriminate.
Qed.

Lemma EOF_only_after_cancellation_witness :
  ctxDone (sys_conn hello_closed_system) = true.
Proof.
  exact (proj1 (proj2 (proj2 (proj2
           (EOF_only_after_cancellation hello_stream hello_then_stream_end
              hello_closed_system eq_refl))))
           (Some (make 5)) 0 0
           (mkReadReturn 0 (Some io_EOF) (Some (make 5))
              (sys_conn hello_closed_system))
           eq_refl eq_refl).
Defined.
